(** * Proof Guard backend: lifecycle engine, upload coordinator, share links

    A shallow embedding of the service and repository classes of the
    NestJS backend, with the persistence layer (Prisma on PostgreSQL)
    represented by an explicit store that every operation threads through.

    - [src/shipments/shipments.service.ts], [shipments.repository.ts]
    - [src/videos/videos.service.ts], [videos.repository.ts]
    - [src/common/services/s3.service.ts]
    - [src/share-links/share-links.service.ts], [share-links.repository.ts]

    Every [await] of the source is one call on the store, committed on its
    own: an exception thrown later does not undo an earlier write. *)

From Stdlib Require Import Ascii.
From stdpp Require Import gmap strings list fin_maps.

Open Scope string_scope.

(** ** Lifecycle states *)

(** Modelled from the spec: the enum [ShipmentStatus] is imported from the
    generated Prisma client, which is not among the sources.  Its five
    members are the keys of [ShipmentsService.validTransitions], whose type
    [Record<ShipmentStatus, ShipmentStatus[]>] is exhaustive. *)
Inductive ShipmentStatus : Type :=
  | CREATED
  | RECORDING
  | PROCESSING
  | SEALED
  | FAILED.

#[global] Instance ShipmentStatus_eq_dec : EqDecision ShipmentStatus.
Proof. solve_decision. Defined.

(** The string value of an enum member, as it is interpolated in messages. *)
Definition status_name (s : ShipmentStatus) : string :=
  match s with
  | CREATED => "CREATED"
  | RECORDING => "RECORDING"
  | PROCESSING => "PROCESSING"
  | SEALED => "SEALED"
  | FAILED => "FAILED"
  end.

(** [Array.prototype.join] on an array of strings. *)
Fixpoint join (sep : string) (l : list string) : string :=
  match l with
  | [] => ""
  | [x] => x
  | x :: rest => x +:+ sep +:+ join sep rest
  end.

(** [Array.prototype.includes] on an array of statuses. *)
Definition includes (l : list ShipmentStatus) (s : ShipmentStatus) : bool :=
  bool_decide (s ∈ l).

(** ** Exceptions *)

(** The exception classes the services throw, and the error raised by the
    Prisma client when a constraint of the schema rejects a statement
    (its message is the Prisma error code). *)
Inductive ExceptionClass : Type :=
  | BadRequestException
  | ConflictException
  | NotFoundException
  | UnauthorizedException
  | InternalServerErrorException
  | PrismaClientKnownRequestError.

#[global] Instance ExceptionClass_eq_dec : EqDecision ExceptionClass.
Proof. solve_decision. Defined.

Record Exception : Type := mkException {
  exn_class : ExceptionClass;
  exn_message : string
}.

#[global] Instance Exception_eq_dec : EqDecision Exception.
Proof. solve_decision. Defined.

(** The settled value of a promise. *)
Inductive Outcome (A : Type) : Type :=
  | Return (a : A)
  | Throw (e : Exception).
Arguments Return {A} a.
Arguments Throw {A} e.

Definition is_return {A} (o : Outcome A) : bool :=
  match o with Return _ => true | Throw _ => false end.

(** ** Entities and the store *)

(** Modelled from the spec: the Prisma schema is not among the sources; the
    columns are those of section 3 of the specification, as the service
    code reads and writes them.  The primary key [id] of a shipment is the
    key of the [shipments] map. *)
Module Shipment.
Record t : Type := mk {
  awb : string;
  status : ShipmentStatus;
  organizationId : string;
  createdById : string
}.
Definition with_status (s : t) (st : ShipmentStatus) : t :=
  {| awb := awb s; status := st;
     organizationId := organizationId s; createdById := createdById s |}.
End Shipment.

Module ProofVideo.
Record t : Type := mk {
  id : string;
  shipmentId : string;
  videoUrl : string;
  uploadedById : string
}.
End ProofVideo.

Module ShareLink.
Record t : Type := mk {
  id : string;
  token : string;
  proofVideoId : string;
  expiresAt : Z   (* milliseconds since the epoch, as [Date.valueOf] *)
}.
End ShareLink.

#[global] Instance Shipment_eq_dec : EqDecision Shipment.t.
Proof. solve_decision. Defined.
#[global] Instance ProofVideo_eq_dec : EqDecision ProofVideo.t.
Proof. solve_decision. Defined.
#[global] Instance ShareLink_eq_dec : EqDecision ShareLink.t.
Proof. solve_decision. Defined.

(** The tables the three components touch. *)
Record Db : Type := mkDb {
  users : gset string;
  shipments : gmap string Shipment.t;
  proofVideos : list ProofVideo.t;
  shareLinks : list ShareLink.t
}.

Definition set_shipments (db : Db) (m : gmap string Shipment.t) : Db :=
  {| users := users db; shipments := m;
     proofVideos := proofVideos db; shareLinks := shareLinks db |}.
Definition set_proofVideos (db : Db) (l : list ProofVideo.t) : Db :=
  {| users := users db; shipments := shipments db;
     proofVideos := l; shareLinks := shareLinks db |}.
Definition set_shareLinks (db : Db) (l : list ShareLink.t) : Db :=
  {| users := users db; shipments := shipments db;
     proofVideos := proofVideos db; shareLinks := l |}.

(** ** Asynchronous methods as store transformers *)

(** An [async] method: from the store it runs on to its settled value and
    the store it leaves.  A [Throw] keeps the writes already made. *)
Definition M (A : Type) : Type := Db → Outcome A * Db.

Definition ret {A} (a : A) : M A := λ db, (Return a, db).
Definition throw {A} (e : Exception) : M A := λ db, (Throw e, db).
Definition bind {A B} (m : M A) (k : A → M B) : M B :=
  λ db, match m db with
        | (Return a, db') => k a db'
        | (Throw e, db') => (Throw e, db')
        end.
Definition lift {A} (o : Outcome A) : M A := λ db, (o, db).

Notation "'await' x ← m ; k" := (bind m (λ x, k))
  (at level 10, x name, m at level 100, k at level 200,
   format "'[v' 'await'  x  ←  m ; '/' k ']'").

(** ** Shipments *)

Module UpdateShipmentDto.
(** [status?: ShipmentStatus] is the only property of the DTO. *)
Record t : Type := mk { status : option ShipmentStatus }.
End UpdateShipmentDto.

Module CreateShipmentDto.
Record t : Type := mk { awb : string; organizationId : string }.
End CreateShipmentDto.

Module ShipmentsRepository.

(** [prisma.shipment.findUnique({ where: { id } })]; the included
    relations are read-only joins and are left out of the result. *)
Definition findById (id : string) : M (option Shipment.t) :=
  λ db, (Return (shipments db !! id), db).

(** [prisma.shipment.update({ where: { id }, data })]: sets the columns
    present in [data]; rejects with P2025 when no row has this id. *)
Definition update (id : string) (data : UpdateShipmentDto.t) : M Shipment.t :=
  λ db, match shipments db !! id with
        | None => (Throw (mkException PrismaClientKnownRequestError "P2025"), db)
        | Some row =>
            let row' := match UpdateShipmentDto.status data with
                        | Some st => Shipment.with_status row st
                        | None => row
                        end in
            (Return row', set_shipments db (<[id := row']> (shipments db)))
        end.

(** [prisma.shipment.findUnique({ where: { awb_organizationId: ... } })] *)
Definition findByAwb (awb organizationId : string) : M (option Shipment.t) :=
  λ db, (Return (snd <$> List.find
                   (λ kv, bool_decide (Shipment.awb kv.2 = awb
                                       ∧ Shipment.organizationId kv.2 = organizationId))
                   (map_to_list (shipments db))), db).

(** [prisma.shipment.create({ data: { ...data, createdById } })]: the row
    gets the generated primary key and the column default [CREATED]; the
    insert is rejected with P2002 when the primary key or the unique index
    on [(awb, organizationId)] is taken, with P2003 when the organization
    or the creator row is missing.  The organizations table is not among
    the tables of [Db]; the insert only reads it, and the set of its ids
    is passed in. *)
Definition create (organizations : gset string) (generatedId : string)
    (data : CreateShipmentDto.t) (createdById : string) : M Shipment.t :=
  λ db,
    let row := Shipment.mk (CreateShipmentDto.awb data) CREATED
                 (CreateShipmentDto.organizationId data) createdById in
    if bool_decide
         (is_Some (shipments db !! generatedId)
          ∨ is_Some (List.find
                       (λ kv, bool_decide
                                (Shipment.awb kv.2 = CreateShipmentDto.awb data
                                 ∧ Shipment.organizationId kv.2
                                   = CreateShipmentDto.organizationId data))
                       (map_to_list (shipments db))))
    then (Throw (mkException PrismaClientKnownRequestError "P2002"), db)
    else if bool_decide (CreateShipmentDto.organizationId data ∈ organizations
                         ∧ createdById ∈ users db)
    then (Return row, set_shipments db (<[generatedId := row]> (shipments db)))
    else (Throw (mkException PrismaClientKnownRequestError "P2003"), db).

End ShipmentsRepository.

Module ShipmentsService.

(** Valid state transitions for proof lifecycle *)
Definition validTransitions (s : ShipmentStatus) : list ShipmentStatus :=
  match s with
  | CREATED => [RECORDING; FAILED]
  | RECORDING => [PROCESSING; FAILED]
  | PROCESSING => [SEALED; FAILED]
  | SEALED => []
  | FAILED => []
  end.

Definition findById (id : string) : M Shipment.t :=
  await shipment ← ShipmentsRepository.findById id;
  match shipment with
  | None =>
      throw (mkException NotFoundException
               ("Shipment with ID " +:+ id +:+ " not found"))
  | Some shipment => ret shipment
  end.

Definition invalidTransitionMessage
    (currentStatus newStatus : ShipmentStatus) : string :=
  let allowedTransitions := validTransitions currentStatus in
  "Invalid state transition: Cannot move from " +:+ status_name currentStatus
    +:+ " to " +:+ status_name newStatus +:+ ". "
    +:+ "Allowed transitions: "
    +:+ (if bool_decide (0 < length allowedTransitions)%nat
         then join ", " (status_name <$> allowedTransitions)
         else "None (terminal state)").

Definition validateStateTransition
    (currentStatus newStatus : ShipmentStatus) : Outcome unit :=
  (* Allow same status (idempotent updates) *)
  if decide (currentStatus = newStatus) then Return ()
  else
    let allowedTransitions := validTransitions currentStatus in
    if negb (includes allowedTransitions newStatus) then
      Throw (mkException BadRequestException
               (invalidTransitionMessage currentStatus newStatus))
    else Return ().

Definition sealedMessage : string :=
  "Cannot modify a sealed shipment. Sealed shipments are immutable.".

Definition update (id : string) (updateShipmentDto : UpdateShipmentDto.t)
    : M Shipment.t :=
  await shipment ← findById id;
  (* Prevent any modifications to sealed shipments *)
  if decide (Shipment.status shipment = SEALED) then
    throw (mkException BadRequestException sealedMessage)
  else
    (* If status is being updated, validate the transition *)
    await _ ← match UpdateShipmentDto.status updateShipmentDto with
              | Some newStatus =>
                  lift (validateStateTransition (Shipment.status shipment) newStatus)
              | None => ret ()
              end;
    ShipmentsRepository.update id updateShipmentDto.

Definition create (organizations : gset string) (generatedId : string)
    (createShipmentDto : CreateShipmentDto.t) (createdById : string)
    : M Shipment.t :=
  await existing ← ShipmentsRepository.findByAwb
                     (CreateShipmentDto.awb createShipmentDto)
                     (CreateShipmentDto.organizationId createShipmentDto);
  match existing with
  | Some _ =>
      throw (mkException ConflictException
               ("Shipment with AWB " +:+ CreateShipmentDto.awb createShipmentDto
                  +:+ " already exists for this organization"))
  | None =>
      ShipmentsRepository.create organizations generatedId createShipmentDto createdById
  end.

End ShipmentsService.

(** ** Blob storage *)

Module MulterFile.
Record t : Type := mk {
  originalname : string;
  mimetype : string;
  buffer : string
}.
End MulterFile.

(** [name.split('.').pop()]: the text after the last dot, the whole name
    when it has none.  [acc] is the segment read so far. *)
Fixpoint lastSegment (name acc : string) : string :=
  match name with
  | EmptyString => acc
  | String c rest =>
      if decide (c = "."%char) then lastSegment rest ""
      else lastSegment rest (acc +:+ String c "")
  end.

(** What the outside world answers during one upload: the UUID drawn for
    the object key, the error of the S3 client's [send] if it rejects, and
    the primary key the database generates for the new video row. *)
Record UploadEnv : Type := mkUploadEnv {
  randomUUID : string;
  sendError : option string;
  generatedVideoId : string
}.

Module S3Service.

Record t : Type := mk { bucketName : string; region : string }.

Definition uploadFile (this : t) (env : UploadEnv)
    (file : MulterFile.t) (folder : string) : Outcome string :=
  (* Generate unique filename with original extension *)
  let fileExtension := lastSegment (MulterFile.originalname file) "" in
  let fileName := folder +:+ "/" +:+ randomUUID env +:+ "." +:+ fileExtension in
  match sendError env with
  | None =>
      (* Return the S3 URL *)
      Return ("https://" +:+ bucketName this +:+ ".s3." +:+ region this
                +:+ ".amazonaws.com/" +:+ fileName)
  | Some message =>
      Throw (mkException InternalServerErrorException
               ("Failed to upload file to S3: " +:+ message))
  end.

End S3Service.

(** ** Proof videos *)

Module UploadVideoDto.
Record t : Type := mk { shipmentId : string }.
End UploadVideoDto.

Module VideosRepository.

(** [prisma.proofVideo.findUnique({ where: { shipmentId } })] *)
Definition findByShipmentId (shipmentId : string) : M (option ProofVideo.t) :=
  λ db, (Return (List.find
                   (λ v, bool_decide (ProofVideo.shipmentId v = shipmentId))
                   (proofVideos db)), db).

(** [prisma.proofVideo.create]: the insert is rejected with P2002 when
    the primary key or the unique index on [shipmentId] is taken, with
    P2003 when the shipment or the uploader row is missing. *)
Definition create (env : UploadEnv) (shipmentId videoUrl uploadedById : string)
    : M ProofVideo.t :=
  λ db,
    let row := ProofVideo.mk (generatedVideoId env) shipmentId videoUrl uploadedById in
    if bool_decide (Exists (λ v, ProofVideo.id v = ProofVideo.id row
                                 ∨ ProofVideo.shipmentId v = shipmentId)
                      (proofVideos db))
    then (Throw (mkException PrismaClientKnownRequestError "P2002"), db)
    else if bool_decide (is_Some (shipments db !! shipmentId)
                         ∧ uploadedById ∈ users db)
    then (Return row, set_proofVideos db (proofVideos db ++ [row]))
    else (Throw (mkException PrismaClientKnownRequestError "P2003"), db).

(** [prisma.proofVideo.findUnique({ where: { id } })] *)
Definition findById (id : string) : M (option ProofVideo.t) :=
  λ db, (Return (List.find (λ v, bool_decide (ProofVideo.id v = id))
                   (proofVideos db)), db).

End VideosRepository.

Module VideosService.

Definition conflictMessage (shipmentId : string) : string :=
  "Proof video already exists for shipment " +:+ shipmentId
    +:+ ". Videos are immutable and cannot be replaced.".
Definition notFoundMessage (shipmentId : string) : string :=
  "Shipment " +:+ shipmentId +:+ " not found".
Definition sealedMessage : string :=
  "Cannot upload video to a sealed shipment. Sealed shipments are immutable.".
Definition failedMessage : string :=
  "Cannot upload video to a failed shipment.".

(** Lines 26-58 of [upload]: the three guards, in the order of the source.
    Returns the shipment the upload goes on with. *)
Definition uploadChecks (uploadVideoDto : UploadVideoDto.t) : M Shipment.t :=
  (* Check if video already exists for this shipment *)
  await existing ← VideosRepository.findByShipmentId
                     (UploadVideoDto.shipmentId uploadVideoDto);
  match existing with
  | Some _ =>
      throw (mkException ConflictException
               (conflictMessage (UploadVideoDto.shipmentId uploadVideoDto)))
  | None =>
      (* Verify shipment exists and is not already sealed *)
      await shipment ← ShipmentsRepository.findById
                         (UploadVideoDto.shipmentId uploadVideoDto);
      match shipment with
      | None =>
          throw (mkException NotFoundException
                   (notFoundMessage (UploadVideoDto.shipmentId uploadVideoDto)))
      | Some shipment =>
          if decide (Shipment.status shipment = SEALED) then
            throw (mkException BadRequestException sealedMessage)
          else if decide (Shipment.status shipment = FAILED) then
            throw (mkException BadRequestException failedMessage)
          else ret shipment
      end
  end.

(** Lines 60-74 of [upload]: store the file, insert the row, seal. *)
Definition uploadAndSeal (s3Service : S3Service.t) (env : UploadEnv)
    (uploadVideoDto : UploadVideoDto.t) (file : MulterFile.t)
    (uploadedById : string) : M ProofVideo.t :=
  (* Upload file to S3 and get the URL *)
  await videoUrl ← lift (S3Service.uploadFile s3Service env file "proof-videos");
  (* Save video URL to database *)
  await video ← VideosRepository.create env
                  (UploadVideoDto.shipmentId uploadVideoDto) videoUrl uploadedById;
  (* Automatically seal the shipment after successful upload *)
  await _ ← ShipmentsRepository.update
              (UploadVideoDto.shipmentId uploadVideoDto)
              (UpdateShipmentDto.mk (Some SEALED));
  ret video.

Definition upload (s3Service : S3Service.t) (env : UploadEnv)
    (uploadVideoDto : UploadVideoDto.t) (file : MulterFile.t)
    (uploadedById : string) : M ProofVideo.t :=
  await _ ← uploadChecks uploadVideoDto;
  uploadAndSeal s3Service env uploadVideoDto file uploadedById.

Definition findById (id : string) : M ProofVideo.t :=
  await video ← VideosRepository.findById id;
  match video with
  | None =>
      throw (mkException NotFoundException ("Video with ID " +:+ id +:+ " not found"))
  | Some video => ret video
  end.

Definition findByShipmentId (shipmentId : string) : M ProofVideo.t :=
  await video ← VideosRepository.findByShipmentId shipmentId;
  match video with
  | None =>
      throw (mkException NotFoundException
               ("Video for shipment " +:+ shipmentId +:+ " not found"))
  | Some video => ret video
  end.

End VideosService.

(** ** Share links *)

(** A share link with the relations [findByToken] includes. *)
Record ShareLinkWithVideo : Type := mkShareLinkWithVideo {
  link : ShareLink.t;
  proofVideo : option ProofVideo.t;
  shipment : option Shipment.t
}.

Record BatchPayload : Type := mkBatchPayload { count : nat }.

Module ShareLinksRepository.

(** [prisma.shareLink.findUnique({ where: { token }, include: ... })] *)
Definition findByToken (token : string) : M (option ShareLinkWithVideo) :=
  λ db,
    (Return
       (match List.find (λ l, bool_decide (ShareLink.token l = token))
                (shareLinks db) with
        | None => None
        | Some l =>
            let video := List.find
                           (λ v, bool_decide (ProofVideo.id v = ShareLink.proofVideoId l))
                           (proofVideos db) in
            Some (mkShareLinkWithVideo l video
                    (match video with
                     | Some v => shipments db !! ProofVideo.shipmentId v
                     | None => None
                     end))
        end), db).

(** [prisma.shareLink.deleteMany({ where: { expiresAt: { lt: new Date() } } })] *)
Definition deleteExpired (now : Z) : M BatchPayload :=
  λ db,
    let expired := filter (λ l, ShareLink.expiresAt l < now)%Z (shareLinks db) in
    (Return (mkBatchPayload (length expired)),
     set_shareLinks db
       (filter (λ l, ¬ (ShareLink.expiresAt l < now)%Z) (shareLinks db))).

(** The relations included with a share link row. *)
Definition withVideo (l : ShareLink.t) (db : Db) : ShareLinkWithVideo :=
  let video := List.find
                 (λ v, bool_decide (ProofVideo.id v = ShareLink.proofVideoId l))
                 (proofVideos db) in
  mkShareLinkWithVideo l video
    (match video with
     | Some v => shipments db !! ProofVideo.shipmentId v
     | None => None
     end).

(** [prisma.shareLink.create]: rejected with P2002 when the primary key
    or the unique index on [token] is taken, with P2003 when no proof
    video has the given id. *)
Definition create (generatedId : string) (proofVideoId token : string)
    (expiresAt : Z) : M ShareLinkWithVideo :=
  λ db,
    let row := ShareLink.mk generatedId token proofVideoId expiresAt in
    if bool_decide (Exists (λ l, ShareLink.id l = generatedId
                                 ∨ ShareLink.token l = token)
                      (shareLinks db))
    then (Throw (mkException PrismaClientKnownRequestError "P2002"), db)
    else if bool_decide (Exists (λ v, ProofVideo.id v = proofVideoId) (proofVideos db))
    then (Return (withVideo row (set_shareLinks db (shareLinks db ++ [row]))),
          set_shareLinks db (shareLinks db ++ [row]))
    else (Throw (mkException PrismaClientKnownRequestError "P2003"), db).

(** [prisma.shareLink.findUnique({ where: { id }, include: ... })] *)
Definition findById (id : string) : M (option ShareLinkWithVideo) :=
  λ db,
    (Return ((λ l, withVideo l db) <$>
               List.find (λ l, bool_decide (ShareLink.id l = id)) (shareLinks db)),
     db).

(** [prisma.shareLink.delete({ where: { id } })]: returns the row it
    removes; rejects with P2025 when no row has this id. *)
Definition delete (id : string) : M ShareLink.t :=
  λ db,
    match List.find (λ l, bool_decide (ShareLink.id l = id)) (shareLinks db) with
    | None => (Throw (mkException PrismaClientKnownRequestError "P2025"), db)
    | Some row =>
        (Return row,
         set_shareLinks db (filter (λ l, ShareLink.id l ≠ id) (shareLinks db)))
    end.

End ShareLinksRepository.

(** The arithmetic of [Date.prototype.getHours] and [setHours] (ECMAScript,
    "Date Objects").  Time values are integers, milliseconds since the
    epoch; [None] is an invalid date.  [LocalTZA t isUTC] is the offset of
    the host's time zone at [t]. *)
Module JsDate.

Definition msPerSecond : Z := 1000.
Definition msPerMinute : Z := 60000.
Definition msPerHour : Z := 3600000.
Definition msPerDay : Z := 86400000.

Definition Day (t : Z) : Z := (t `div` msPerDay)%Z.
Definition HourFromTime (t : Z) : Z := ((t `div` msPerHour) `mod` 24)%Z.
Definition MinFromTime (t : Z) : Z := ((t `div` msPerMinute) `mod` 60)%Z.
Definition SecFromTime (t : Z) : Z := ((t `div` msPerSecond) `mod` 60)%Z.
Definition msFromTime (t : Z) : Z := (t `mod` msPerSecond)%Z.

Definition MakeTime (hour min sec ms : Z) : Z :=
  (hour * msPerHour + min * msPerMinute + sec * msPerSecond + ms)%Z.
Definition MakeDate (day time : Z) : Z := (day * msPerDay + time)%Z.

Definition LocalTime (LocalTZA : Z → bool → Z) (t : Z) : Z := (t + LocalTZA t true)%Z.
Definition UTC (LocalTZA : Z → bool → Z) (t : Z) : Z := (t - LocalTZA t false)%Z.

Definition TimeClip (time : Z) : option Z :=
  if decide (Z.abs time > 8640000000000000)%Z then None else Some time.

Definition getHours (LocalTZA : Z → bool → Z) (t : Z) : Z :=
  HourFromTime (LocalTime LocalTZA t).

Definition setHours (LocalTZA : Z → bool → Z) (t : Z) (hour : Z) : option Z :=
  let t := LocalTime LocalTZA t in
  let date := MakeDate (Day t)
                (MakeTime hour (MinFromTime t) (SecFromTime t) (msFromTime t)) in
  TimeClip (UTC LocalTZA date).

End JsDate.

(** [Buffer.prototype.toString('hex')]: two lowercase digits per byte. *)
Definition hexDigit (n : N) : ascii :=
  match n with
  | 0 => "0" | 1 => "1" | 2 => "2" | 3 => "3" | 4 => "4" | 5 => "5"
  | 6 => "6" | 7 => "7" | 8 => "8" | 9 => "9" | 10 => "a" | 11 => "b"
  | 12 => "c" | 13 => "d" | 14 => "e" | _ => "f"
  end%N%char.

Fixpoint toHex (bytes : list Byte.byte) : string :=
  match bytes with
  | [] => ""
  | b :: rest =>
      String (hexDigit (Byte.to_N b / 16)) (String (hexDigit (Byte.to_N b mod 16)) (toHex rest))
  end.

Module CreateShareLinkDto.
Record t : Type := mk { proofVideoId : string; expiresInHours : Z }.
End CreateShareLinkDto.

Module ShareLinksService.

(** [now] is the value of [new Date()] read by the method. *)
Definition validateToken (now : Z) (token : string) : M ShareLinkWithVideo :=
  await shareLink ← ShareLinksRepository.findByToken token;
  match shareLink with
  | None => throw (mkException NotFoundException "Invalid share link")
  | Some shareLink =>
      if decide (now > ShareLink.expiresAt (link shareLink))%Z then
        throw (mkException UnauthorizedException "Share link has expired")
      else ret shareLink
  end.

Definition cleanupExpired (now : Z) : M BatchPayload :=
  ShareLinksRepository.deleteExpired now.

(** [randomBytes] is the source of [crypto.randomBytes]. *)
Definition generateToken (randomBytes : nat → list Byte.byte) : string :=
  toHex (randomBytes 32%nat).

(** [now] is the value of [new Date()]; [setHours] leaves an invalid date
    when the result is out of range, which the Prisma client refuses as an
    argument before any statement is sent, with an error that is not among
    [ExceptionClass]: the method is then [None]. *)
Definition create (LocalTZA : Z → bool → Z) (now : Z)
    (randomBytes : nat → list Byte.byte) (generatedId : string)
    (createShareLinkDto : CreateShareLinkDto.t) : option (M ShareLinkWithVideo) :=
  let token := generateToken randomBytes in
  match JsDate.setHours LocalTZA now
          (JsDate.getHours LocalTZA now
           + CreateShareLinkDto.expiresInHours createShareLinkDto) with
  | Some expiresAt =>
      Some (ShareLinksRepository.create generatedId
              (CreateShareLinkDto.proofVideoId createShareLinkDto) token expiresAt)
  | None => None
  end.

Definition findById (id : string) : M ShareLinkWithVideo :=
  await shareLink ← ShareLinksRepository.findById id;
  match shareLink with
  | None =>
      throw (mkException NotFoundException
               ("Share link with ID " +:+ id +:+ " not found"))
  | Some shareLink => ret shareLink
  end.

Definition delete (id : string) : M ShareLink.t :=
  await _ ← findById id;
  ShareLinksRepository.delete id.

End ShareLinksService.

(** ** Requests served one after another *)

(** The two mutating endpoints of the lifecycle:
    [PATCH /shipments/:id] and [POST /videos/upload]. *)
Inductive Request : Type :=
  | PatchShipment (id : string) (updateShipmentDto : UpdateShipmentDto.t)
  | PostUpload (env : UploadEnv) (uploadVideoDto : UploadVideoDto.t)
      (file : MulterFile.t) (uploadedById : string).

Definition isPatch (r : Request) : Prop :=
  match r with PatchShipment _ _ => True | PostUpload _ _ _ _ => False end.

(** The store a request leaves, whether it returned or threw. *)
Definition handle (s3Service : S3Service.t) (r : Request) (db : Db) : Db :=
  match r with
  | PatchShipment id dto => snd (ShipmentsService.update id dto db)
  | PostUpload env dto file uploadedById =>
      snd (VideosService.upload s3Service env dto file uploadedById db)
  end.

Definition serve (s3Service : S3Service.t) (rs : list Request) (db : Db) : Db :=
  foldl (λ db r, handle s3Service r db) db rs.

Definition statusOf (id : string) (db : Db) : option ShipmentStatus :=
  Shipment.status <$> shipments db !! id.

(** The status of one shipment before the first request and after each. *)
Fixpoint statusHistory (s3Service : S3Service.t) (id : string)
    (rs : list Request) (db : Db) : list (option ShipmentStatus) :=
  statusOf id db ::
  match rs with
  | [] => []
  | r :: rs' => statusHistory s3Service id rs' (handle s3Service r db)
  end.

Definition hasVideo (shipmentId : string) (db : Db) : Prop :=
  ∃ v, v ∈ proofVideos db ∧ ProofVideo.shipmentId v = shipmentId.

(** Foreign key of [proof_videos.shipmentId]. *)
Definition videosReferenceShipments (db : Db) : Prop :=
  ∀ v, v ∈ proofVideos db → is_Some (shipments db !! ProofVideo.shipmentId v).

(** The strictly linear path to [SEALED] from a given stage. *)
Definition pathToSealed (s : ShipmentStatus) : list ShipmentStatus :=
  match s with
  | CREATED => [CREATED; RECORDING; PROCESSING; SEALED]
  | RECORDING => [RECORDING; PROCESSING; SEALED]
  | PROCESSING => [PROCESSING; SEALED]
  | SEALED => [SEALED]
  | FAILED => []
  end.

(** ** One upload, await by await *)

(** Where a call of [VideosService.upload] is suspended: at one of its five
    [await]s, holding the locals it has bound so far, or settled. *)
Inductive UploadTask : Type :=
  | AwaitExisting
  | AwaitShipment
  | AwaitUploadFile
  | AwaitCreate (videoUrl : string)
  | AwaitSeal (video : ProofVideo.t)
  | Settled (o : Outcome ProofVideo.t).

Definition settle {A} (r : Outcome A * Db) (k : A → UploadTask) : UploadTask * Db :=
  match r with
  | (Return a, db') => (k a, db')
  | (Throw e, db') => (Settled (Throw e), db')
  end.

(** Runs the task from the [await] it is suspended at to the next one. *)
Definition resume (s3Service : S3Service.t) (env : UploadEnv)
    (uploadVideoDto : UploadVideoDto.t) (file : MulterFile.t)
    (uploadedById : string) (t : UploadTask) (db : Db) : UploadTask * Db :=
  let shipmentId := UploadVideoDto.shipmentId uploadVideoDto in
  match t with
  | AwaitExisting =>
      settle (VideosRepository.findByShipmentId shipmentId db)
        (λ existing,
           match existing with
           | Some _ => Settled (Throw (mkException ConflictException
                                         (VideosService.conflictMessage shipmentId)))
           | None => AwaitShipment
           end)
  | AwaitShipment =>
      settle (ShipmentsRepository.findById shipmentId db)
        (λ shipment,
           match shipment with
           | None => Settled (Throw (mkException NotFoundException
                                       (VideosService.notFoundMessage shipmentId)))
           | Some shipment =>
               if decide (Shipment.status shipment = SEALED) then
                 Settled (Throw (mkException BadRequestException
                                   VideosService.sealedMessage))
               else if decide (Shipment.status shipment = FAILED) then
                 Settled (Throw (mkException BadRequestException
                                   VideosService.failedMessage))
               else AwaitUploadFile
           end)
  | AwaitUploadFile =>
      settle (lift (S3Service.uploadFile s3Service env file "proof-videos") db)
        AwaitCreate
  | AwaitCreate videoUrl =>
      settle (VideosRepository.create env shipmentId videoUrl uploadedById db)
        AwaitSeal
  | AwaitSeal video =>
      settle (ShipmentsRepository.update shipmentId
                (UpdateShipmentDto.mk (Some SEALED)) db)
        (λ _, Settled (Return video))
  | Settled o => (Settled o, db)
  end.

(** What happens at one turn of the event loop while an upload is in
    flight: the upload resumes, or another request is served whole. *)
Inductive Turn : Type :=
  | TurnUpload
  | TurnRequest (r : Request).

Definition turn (s3Service : S3Service.t) (env : UploadEnv)
    (uploadVideoDto : UploadVideoDto.t) (file : MulterFile.t)
    (uploadedById : string) (st : UploadTask * Db) (u : Turn) : UploadTask * Db :=
  match u with
  | TurnUpload => resume s3Service env uploadVideoDto file uploadedById st.1 st.2
  | TurnRequest r => (st.1, handle s3Service r st.2)
  end.

Definition runTurns (s3Service : S3Service.t) (env : UploadEnv)
    (uploadVideoDto : UploadVideoDto.t) (file : MulterFile.t)
    (uploadedById : string) (us : list Turn) (db : Db) : UploadTask * Db :=
  foldl (turn s3Service env uploadVideoDto file uploadedById) (AwaitExisting, db) us.

(** ** Stores named in the statements *)

(** The store an upload leaves when its three calls all return: the video
    row appended, the shipment sealed. *)
Definition sealedBy (env : UploadEnv) (shipmentId videoUrl uploadedById : string)
    (s : Shipment.t) (db : Db) : Db :=
  set_shipments
    (set_proofVideos db
       (proofVideos db ++
          [ProofVideo.mk (generatedVideoId env) shipmentId videoUrl uploadedById]))
    (<[shipmentId := Shipment.with_status s SEALED]> (shipments db)).

(** The row [findUnique({ where: { token } })] selects. *)
Definition findLink (token : string) (db : Db) : option ShareLink.t :=
  List.find (λ l, bool_decide (ShareLink.token l = token)) (shareLinks db).

(** A link with the relations [findByToken] includes. *)
Definition includeOf (l : ShareLink.t) (db : Db) : ShareLinkWithVideo :=
  let video := List.find (λ v, bool_decide (ProofVideo.id v = ShareLink.proofVideoId l))
                 (proofVideos db) in
  mkShareLinkWithVideo l video
    (match video with
     | Some v => shipments db !! ProofVideo.shipmentId v
     | None => None
     end).

(** Closes a decidable goal on concrete data by evaluation. *)
Ltac by_decide := apply (bool_decide_unpack _); vm_compute; exact I.

(** ** The organization guard *)

Module OrganizationGuard.

(** [canActivate] returns [true] or throws a [ForbiddenException]. *)
Inductive Result : Type :=
  | ReturnTrue
  | ThrowForbidden (message : string).

(** What the guard reads of the request; a property that is absent is
    [None]. *)
Record HttpRequest : Type := mkHttpRequest {
  user_organizationId : string;
  params_organizationId : option string;
  body_organizationId : option string
}.

(** Truthiness of a string or [undefined]. *)
Definition truthy (v : option string) : bool :=
  match v with
  | Some s => negb (bool_decide (s = ""))
  | None => false
  end.

(** [a || b] *)
Definition or (a b : option string) : option string :=
  if truthy a then a else b.

Definition canActivate (request : HttpRequest) : Result :=
  let organizationId :=
    or (params_organizationId request) (body_organizationId request) in
  if negb (truthy organizationId) then ReturnTrue
  else if bool_decide (Some (user_organizationId request) ≠ organizationId) then
    ThrowForbidden "You do not have permission to access this organization"
  else ReturnTrue.

End OrganizationGuard.

(** ** Identifiers *)




(** ** Invariants of the store *)

(** What the schema's keys and foreign keys say of the video table. *)
Definition storeConsistent (db : Db) : Prop :=
  videosReferenceShipments db
  ∧ (∀ v, v ∈ proofVideos db → ProofVideo.uploadedById v ∈ users db)
  ∧ NoDup (ProofVideo.shipmentId <$> proofVideos db)
  ∧ NoDup (ProofVideo.id <$> proofVideos db).

(** Every shipment that has a video is sealed. *)
Definition sealedIfVideo (db : Db) : Prop :=
  ∀ v, v ∈ proofVideos db → statusOf (ProofVideo.shipmentId v) db = Some SEALED.

(** The unique index on [(awb, organizationId)]. *)
Definition awbUnique (db : Db) : Prop :=
  ∀ i j s t,
    shipments db !! i = Some s → shipments db !! j = Some t →
    Shipment.awb s = Shipment.awb t →
    Shipment.organizationId s = Shipment.organizationId t →
    i = j.

(** The number of status changes still possible from a stage. *)
Definition stagesLeft (s : ShipmentStatus) : nat :=
  match s with
  | CREATED => 3
  | RECORDING => 2
  | PROCESSING => 1
  | SEALED => 0
  | FAILED => 0
  end.

(** The number of places where a history changes value. *)
Fixpoint changesFrom (prev : option ShipmentStatus)
    (h : list (option ShipmentStatus)) : nat :=
  match h with
  | [] => 0
  | x :: t => (if decide (prev = x) then 0 else 1) + changesFrom x t
  end.

Definition changes (h : list (option ShipmentStatus)) : nat :=
  match h with
  | [] => 0
  | x :: t => changesFrom x t
  end.

(** A string without the character. *)
Fixpoint freeOf (c : ascii) (s : string) : Prop :=
  match s with
  | EmptyString => True
  | String c' rest => c' ≠ c ∧ freeOf c rest
  end.

(** ** Sample data *)

Module Sample.

Definition s3 : S3Service.t := S3Service.mk "proofs" "eu-west-1".
Definition file : MulterFile.t := MulterFile.mk "delivery.final.mp4" "video/mp4" "".
Definition env : UploadEnv := mkUploadEnv "uuid-1" None "v1".
Definition envDown : UploadEnv := mkUploadEnv "uuid-1" (Some "socket hang up") "v1".
Definition dto : UploadVideoDto.t := UploadVideoDto.mk "s1".

Definition shipmentIn (st : ShipmentStatus) : Shipment.t :=
  Shipment.mk "AWB1" st "org-A" "u1".

(** One shipment ["s1"] in the given status, one user, no video. *)
Definition dbIn (st : ShipmentStatus) : Db :=
  mkDb {[ "u1" ]} {[ "s1" := shipmentIn st ]} [] [].

Definition url : string :=
  "https://proofs.s3.eu-west-1.amazonaws.com/proof-videos/uuid-1.mp4".
Definition video : ProofVideo.t := ProofVideo.mk "v1" "s1" url "u1".

(** The shipment in the given status with its video attached. *)
Definition dbWithVideo (st : ShipmentStatus) : Db :=
  mkDb {[ "u1" ]} {[ "s1" := shipmentIn st ]} [video] [].

Definition linkA : ShareLink.t := ShareLink.mk "l1" "tok-a" "v1" 1000.
Definition linkB : ShareLink.t := ShareLink.mk "l2" "tok-b" "v1" 5000.
Definition dbLinks : Db :=
  mkDb {[ "u1" ]} {[ "s1" := shipmentIn SEALED ]} [video] [linkA; linkB].

Definition organizations : gset string := {[ "org-A" ]}.
Definition createDto : CreateShipmentDto.t := CreateShipmentDto.mk "AWB2" "org-A".
Definition utc : Z → bool → Z := λ _ _, 0%Z.
Definition randomBytes : nat → list Byte.byte := λ n, replicate n Byte.xab.
Definition linkDto : CreateShareLinkDto.t := CreateShareLinkDto.mk "v1" 24.

End Sample.

(** * Properties *)

(** ** The lifecycle engine *)

Section Lifecycle.

Import ShipmentsService.

Lemma validTransitions_irrefl a : a ∉ validTransitions a.
Proof. destruct a; by_decide. Qed.

Lemma validTransitions_from_terminal a b :
  a = SEALED ∨ a = FAILED → b ∉ validTransitions a.
Proof. intros [-> | ->]; cbn; apply not_elem_of_nil. Qed.

(** The validator accepts exactly the same status and the table's entries. *)
Lemma validateStateTransition_spec a b :
  validateStateTransition a b =
    if decide (a = b ∨ b ∈ validTransitions a) then Return ()
    else Throw (mkException BadRequestException (invalidTransitionMessage a b)).
Proof.
  unfold validateStateTransition, includes.
  destruct (decide (a = b)) as [->|Hne].
  - rewrite decide_True; [done | by left].
  - case_bool_decide; cbn.
    + rewrite decide_True; [done | by right].
    + rewrite decide_False; [done | by intros [|]].
Qed.

Lemma with_status_same (s : Shipment.t) : Shipment.with_status s (Shipment.status s) = s.
Proof. by destruct s. Qed.

(** [update] on a shipment that exists, one branch per line of the method. *)
Lemma update_found db id s dto :
  shipments db !! id = Some s →
  update id dto db =
    if decide (Shipment.status s = SEALED) then
      (Throw (mkException BadRequestException sealedMessage), db)
    else
      match UpdateShipmentDto.status dto with
      | Some b =>
          if decide (Shipment.status s = b ∨ b ∈ validTransitions (Shipment.status s))
          then (Return (Shipment.with_status s b),
                set_shipments db (<[id := Shipment.with_status s b]> (shipments db)))
          else (Throw (mkException BadRequestException
                         (invalidTransitionMessage (Shipment.status s) b)), db)
      | None => (Return s, set_shipments db (<[id := s]> (shipments db)))
      end.
Proof.
  intros Hs. unfold update, findById, ShipmentsRepository.findById, bind, throw, ret.
  cbn. rewrite Hs. cbn. destruct (decide (Shipment.status s = SEALED)); [done|].
  destruct dto as [[b|]]; cbn.
  - unfold lift. rewrite validateStateTransition_spec.
    destruct (decide _); [|done].
    unfold ShipmentsRepository.update. by rewrite Hs.
  - unfold ShipmentsRepository.update. by rewrite Hs.
Qed.

Lemma update_missing db id dto :
  shipments db !! id = None →
  update id dto db =
    (Throw (mkException NotFoundException
              ("Shipment with ID " +:+ id +:+ " not found")), db).
Proof.
  intros Hs. unfold update, findById, ShipmentsRepository.findById, bind, throw.
  cbn. by rewrite Hs.
Qed.

Lemma set_shipments_id db id s :
  shipments db !! id = Some s → set_shipments db (<[id := s]> (shipments db)) = db.
Proof. intros Hs. rewrite insert_id by done. by destruct db. Qed.

End Lifecycle.

(** A request for another status that the table does not allow. *)
Lemma requestTransition_outcome_aux (db : Db) (id : string) (s : Shipment.t)
    (b : ShipmentStatus) :
  shipments db !! id = Some s →
  b ≠ Shipment.status s →
  b ∉ ShipmentsService.validTransitions (Shipment.status s) →
  fst (ShipmentsService.update id (UpdateShipmentDto.mk (Some b)) db)
  = Throw (mkException BadRequestException
             (if decide (Shipment.status s = SEALED)
              then ShipmentsService.sealedMessage
              else ShipmentsService.invalidTransitionMessage (Shipment.status s) b)).
Proof.
  intros Hs Hne Hno. rewrite (update_found _ _ _ _ Hs). cbn.
  destruct (decide (Shipment.status s = SEALED)); [done|].
  rewrite decide_False; [done|]. intros [Heq | Hin]; [by destruct Hne | done].
Qed.

(** C1 (as amended): for a shipment in status [a] and a requested status
    [b] different from [a], [ShipmentsService.update] with
    [{ status: b }] succeeds iff [b] is in the table's entry for [a], and
    then persists [b] and nothing else.  Otherwise it throws and leaves the
    store as it was: the invalid-transition error naming [a], [b] and the
    legal next states when [a] is not [SEALED]; the sealed-shipment error
    when [a] is [SEALED], whose check comes first. *)
Theorem requestTransition_outcome (db : Db) (id : string) (s : Shipment.t)
    (b : ShipmentStatus) :
  shipments db !! id = Some s →
  b ≠ Shipment.status s →
  let r := ShipmentsService.update id (UpdateShipmentDto.mk (Some b)) db in
  (is_return r.1 = true ↔ b ∈ ShipmentsService.validTransitions (Shipment.status s))
  ∧ (b ∈ ShipmentsService.validTransitions (Shipment.status s) →
     r = (Return (Shipment.with_status s b),
          set_shipments db (<[id := Shipment.with_status s b]> (shipments db))))
  ∧ (b ∉ ShipmentsService.validTransitions (Shipment.status s) →
     r = (Throw (mkException BadRequestException
                   (if decide (Shipment.status s = SEALED)
                    then ShipmentsService.sealedMessage
                    else ShipmentsService.invalidTransitionMessage
                           (Shipment.status s) b)), db)).
Proof.
  intros Hs Hne r. subst r. rewrite (update_found _ _ _ _ Hs). cbn.
  destruct (decide (Shipment.status s = SEALED)) as [Hsealed|Hopen].
  - assert (b ∉ ShipmentsService.validTransitions (Shipment.status s)) as Hno
      by (apply validTransitions_from_terminal; by left).
    cbn. split_and!; [split; [done | by intros ?] | by intros ? | done].
  - destruct (decide _) as [[Heq | Hin] | Hno]; cbn.
    + by destruct Hne.
    + split_and!; [done | done | by intros ?].
    + assert (b ∉ ShipmentsService.validTransitions (Shipment.status s)) as Hno'
        by (intros ?; apply Hno; by right).
      split_and!; [split; [done | by intros ?] | by intros ? | done].
Qed.

Lemma requestTransition_outcome_witness :
  let r := ShipmentsService.update "s1" (UpdateShipmentDto.mk (Some SEALED))
             (Sample.dbIn RECORDING) in
  r = (Throw (mkException BadRequestException
       "Invalid state transition: Cannot move from RECORDING to SEALED. Allowed transitions: PROCESSING, FAILED"),
       Sample.dbIn RECORDING).
Proof.
  refine (proj2 (proj2 (requestTransition_outcome (Sample.dbIn RECORDING) "s1"
                          (Sample.shipmentIn RECORDING) SEALED _ _)) _).
  - reflexivity.
  - discriminate.
  - by_decide.
Defined.

(** C1 (as stated) fails on a sealed shipment: the request for another
    status is refused, but with the sealed-shipment error, not with the
    invalid-transition error that names the two statuses and the legal
    next states. *)
Lemma requestTransition_sealed_counterexample :
  FAILED ≠ SEALED
  ∧ (FAILED ∉ ShipmentsService.validTransitions SEALED)
  ∧ fst (ShipmentsService.update "s1" (UpdateShipmentDto.mk (Some FAILED))
           (Sample.dbIn SEALED))
    = Throw (mkException BadRequestException
               "Cannot modify a sealed shipment. Sealed shipments are immutable.")
  ∧ fst (ShipmentsService.update "s1" (UpdateShipmentDto.mk (Some FAILED))
           (Sample.dbIn SEALED))
    ≠ Throw (mkException BadRequestException
               (ShipmentsService.invalidTransitionMessage SEALED FAILED)).
Proof.
  split_and!; [done | by_decide | reflexivity | by vm_compute].
Qed.

(** C5 (as amended): a request for the status the shipment already has
    succeeds as a no-op in every status but [SEALED], the terminal status
    [FAILED] included; on a [SEALED] shipment it is refused with the
    sealed-shipment error, the store unchanged. *)
Theorem sameStatus_request (db : Db) (id : string) (s : Shipment.t) :
  shipments db !! id = Some s →
  ShipmentsService.update id (UpdateShipmentDto.mk (Some (Shipment.status s))) db =
    if decide (Shipment.status s = SEALED)
    then (Throw (mkException BadRequestException ShipmentsService.sealedMessage), db)
    else (Return s, db).
Proof.
  intros Hs. rewrite (update_found _ _ _ _ Hs). cbn.
  destruct (decide (Shipment.status s = SEALED)); [done|].
  rewrite decide_True by (by left).
  by rewrite with_status_same, set_shipments_id.
Qed.

Lemma sameStatus_request_witness :
  ShipmentsService.update "s1" (UpdateShipmentDto.mk (Some FAILED)) (Sample.dbIn FAILED)
  = (Return (Sample.shipmentIn FAILED), Sample.dbIn FAILED).
Proof.
  apply (sameStatus_request (Sample.dbIn FAILED) "s1" (Sample.shipmentIn FAILED)).
  reflexivity.
Defined.

(** C5 (as stated) fails on a sealed shipment: asking for [SEALED] again
    does not succeed, it throws. *)
Lemma sameStatus_sealed_counterexample :
  statusOf "s1" (Sample.dbIn SEALED) = Some SEALED
  ∧ ShipmentsService.update "s1" (UpdateShipmentDto.mk (Some SEALED)) (Sample.dbIn SEALED)
    = (Throw (mkException BadRequestException
                "Cannot modify a sealed shipment. Sealed shipments are immutable."),
       Sample.dbIn SEALED).
Proof. split; reflexivity. Qed.

(** ** What one request can do to the store *)

Section Effects.

Import ShipmentsService.

(** [update] leaves the store as it was or moves one shipment, not
    sealed, along the table (or to the status it has). *)
Lemma update_effect db id dto :
  snd (update id dto db) = db
  ∨ ∃ s b, shipments db !! id = Some s
           ∧ Shipment.status s ≠ SEALED
           ∧ b ∈ validTransitions (Shipment.status s)
           ∧ snd (update id dto db)
             = set_shipments db (<[id := Shipment.with_status s b]> (shipments db)).
Proof.
  destruct (shipments db !! id) as [s|] eqn:Hs.
  - rewrite (update_found _ _ _ _ Hs).
    destruct (decide (Shipment.status s = SEALED)); [by left|].
    destruct dto as [[b|]]; cbn.
    + destruct (decide _) as [[Heq | Hin] | Hno]; cbn.
      * left. by rewrite <- Heq, with_status_same, set_shipments_id.
      * right. by exists s, b.
      * by left.
    + left. by rewrite set_shipments_id.
  - rewrite update_missing by done. by left.
Qed.

Import VideosService.

Lemma uploadChecks_unfold dto db :
  uploadChecks dto db =
    let shipmentId := UploadVideoDto.shipmentId dto in
    match List.find (λ v, bool_decide (ProofVideo.shipmentId v = shipmentId))
            (proofVideos db) with
    | Some _ => (Throw (mkException ConflictException (conflictMessage shipmentId)), db)
    | None =>
        match shipments db !! shipmentId with
        | None => (Throw (mkException NotFoundException (notFoundMessage shipmentId)), db)
        | Some s =>
            if decide (Shipment.status s = SEALED) then
              (Throw (mkException BadRequestException VideosService.sealedMessage), db)
            else if decide (Shipment.status s = FAILED) then
              (Throw (mkException BadRequestException failedMessage), db)
            else (Return s, db)
        end
    end.
Proof.
  unfold uploadChecks, VideosRepository.findByShipmentId,
    ShipmentsRepository.findById, bind, throw, ret. cbn.
  destruct (List.find _ _); [done|]. cbn.
  destruct (shipments db !! _); [|done].
  by repeat destruct (decide _).
Qed.

(** The guards only read. *)
Lemma uploadChecks_reads dto db : snd (uploadChecks dto db) = db.
Proof.
  rewrite uploadChecks_unfold. cbn.
  destruct (List.find _ _); [done|].
  destruct (shipments db !! _); [|done].
  by repeat destruct (decide _).
Qed.

Lemma uploadChecks_return dto db s db' :
  uploadChecks dto db = (Return s, db') →
  db' = db
  ∧ shipments db !! UploadVideoDto.shipmentId dto = Some s
  ∧ Shipment.status s ≠ SEALED ∧ Shipment.status s ≠ FAILED
  ∧ ¬ hasVideo (UploadVideoDto.shipmentId dto) db.
Proof.
  rewrite uploadChecks_unfold. cbn.
  destruct (List.find _ _) eqn:Hfind; [done|].
  destruct (shipments db !! _) as [s0|]; [|done].
  repeat destruct (decide _); try done.
  intros [= -> ->]. split_and!; try done.
  intros (v & Hv & Hsid).
  apply list_elem_of_In in Hv.
  apply (find_none _ _ Hfind) in Hv. by rewrite bool_decide_eq_false in Hv.
Qed.

Lemma uploadAndSeal_unfold s3 env dto file uploadedById db s :
  shipments db !! UploadVideoDto.shipmentId dto = Some s →
  uploadAndSeal s3 env dto file uploadedById db =
    let shipmentId := UploadVideoDto.shipmentId dto in
    match S3Service.uploadFile s3 env file "proof-videos" with
    | Throw e => (Throw e, db)
    | Return videoUrl =>
        if bool_decide (Exists (λ v, ProofVideo.id v = generatedVideoId env
                                     ∨ ProofVideo.shipmentId v = shipmentId)
                          (proofVideos db))
        then (Throw (mkException PrismaClientKnownRequestError "P2002"), db)
        else if bool_decide (uploadedById ∈ users db)
        then (Return (ProofVideo.mk (generatedVideoId env) shipmentId videoUrl uploadedById),
              sealedBy env shipmentId videoUrl uploadedById s db)
        else (Throw (mkException PrismaClientKnownRequestError "P2003"), db)
    end.
Proof.
  intros Hs. unfold uploadAndSeal, bind, lift, ret. cbn.
  destruct (S3Service.uploadFile _ _ _ _) as [videoUrl|e]; [|done].
  unfold VideosRepository.create. cbn.
  case_bool_decide; [done|].
  case_bool_decide as Hfk.
  - destruct Hfk as [_ Hu]. rewrite bool_decide_eq_true_2 by done.
    unfold ShipmentsRepository.update. cbn. by rewrite Hs.
  - case_bool_decide as Hu; [|done].
    destruct Hfk. split; [by rewrite Hs | done].
Qed.

(** [upload] leaves the store as it was, or appends one video for the
    shipment and seals it; the shipment was then neither sealed nor
    failed and had no video. *)
Lemma upload_effect s3 env dto file uploadedById db :
  let shipmentId := UploadVideoDto.shipmentId dto in
  let r := upload s3 env dto file uploadedById db in
  (is_return r.1 = false ∧ r.2 = db)
  ∨ ∃ s videoUrl,
      shipments db !! shipmentId = Some s
      ∧ Shipment.status s ≠ SEALED ∧ Shipment.status s ≠ FAILED
      ∧ ¬ hasVideo shipmentId db
      ∧ S3Service.uploadFile s3 env file "proof-videos" = Return videoUrl
      ∧ r = (Return (ProofVideo.mk (generatedVideoId env) shipmentId videoUrl uploadedById),
             sealedBy env shipmentId videoUrl uploadedById s db).
Proof.
  intros shipmentId r. subst r. unfold upload, bind.
  destruct (uploadChecks dto db) as [[s|e] db'] eqn:Hchk.
  - apply uploadChecks_return in Hchk as (-> & Hs & Hns & Hnf & Hnv).
    rewrite (uploadAndSeal_unfold _ _ _ _ _ _ _ Hs). cbn.
    destruct (S3Service.uploadFile _ _ _ _) as [videoUrl|e] eqn:Hs3; [|by left].
    case_bool_decide; [by left|].
    case_bool_decide; [|by left].
    right. by exists s, videoUrl.
  - left. split; [done|]. cbn.
    pose proof (uploadChecks_reads dto db) as Hrd. by rewrite Hchk in Hrd.
Qed.

End Effects.

(** ** Terminal shipments and histories *)

Section Histories.

Variable s3 : S3Service.t.

Lemma serve_cons r rs db : serve s3 (r :: rs) db = serve s3 rs (handle s3 r db).
Proof. done. Qed.

(** No request changes a shipment that is sealed or failed. *)
Lemma handle_frozen r db id s :
  shipments db !! id = Some s →
  Shipment.status s = SEALED ∨ Shipment.status s = FAILED →
  shipments (handle s3 r db) !! id = Some s.
Proof.
  intros Hs Hterm. destruct r as [id' dto | env dto file uploadedById]; cbn.
  - destruct (update_effect db id' dto) as [-> | (s0 & b & Hs0 & Hopen & Hb & ->)];
      [done|]. cbn.
    destruct (decide (id' = id)) as [-> | Hne]; [|by rewrite lookup_insert_ne].
    rewrite Hs in Hs0. injection Hs0 as <-.
    by apply (validTransitions_from_terminal _ b) in Hterm.
  - destruct (upload_effect s3 env dto file uploadedById db)
      as [[_ ->] | (s0 & videoUrl & Hs0 & Hns & Hnf & _ & _ & ->)]; [done|]. cbn.
    destruct (decide (UploadVideoDto.shipmentId dto = id)) as [Heq | Hne];
      [|by rewrite lookup_insert_ne].
    rewrite Heq, Hs in Hs0. injection Hs0 as <-. by destruct Hterm.
Qed.

Lemma serve_frozen rs db id s :
  shipments db !! id = Some s →
  Shipment.status s = SEALED ∨ Shipment.status s = FAILED →
  shipments (serve s3 rs db) !! id = Some s.
Proof.
  revert db. induction rs as [|r rs IH]; intros db Hs Hterm; [done|].
  rewrite serve_cons. apply IH; [|done]. by apply handle_frozen.
Qed.

(** Videos are never removed. *)
Lemma handle_hasVideo r db id : hasVideo id db → hasVideo id (handle s3 r db).
Proof.
  intros (v & Hv & Hid). destruct r as [id' dto | env dto file uploadedById]; cbn.
  - destruct (update_effect db id' dto) as [-> | (s0 & b & _ & _ & _ & ->)];
      by exists v.
  - destruct (upload_effect s3 env dto file uploadedById db)
      as [[_ ->] | (s0 & videoUrl & _ & _ & _ & _ & _ & ->)]; [by exists v|].
    exists v. split; [|done]. cbn. apply elem_of_app. by left.
Qed.

Lemma serve_hasVideo rs db id : hasVideo id db → hasVideo id (serve s3 rs db).
Proof.
  revert db. induction rs as [|r rs IH]; intros db Hv; [done|].
  rewrite serve_cons. by apply IH, handle_hasVideo.
Qed.

(** One request keeps the status, moves it along the table, or is an
    upload that seals the shipment and leaves its video. *)
Lemma handle_status_step r db id a :
  statusOf id db = Some a →
  ∃ a', statusOf id (handle s3 r db) = Some a'
        ∧ (a' = a
           ∨ a' ∈ ShipmentsService.validTransitions a
           ∨ (a' = SEALED ∧ hasVideo id (handle s3 r db))).
Proof.
  unfold statusOf. intros Ha.
  destruct (shipments db !! id) as [s|] eqn:Hs; [|done]. injection Ha as <-.
  destruct r as [id' dto | env dto file uploadedById]; cbn.
  - destruct (update_effect db id' dto) as [-> | (s0 & b & Hs0 & Hopen & Hb & ->)].
    + exists (Shipment.status s). rewrite Hs. by split; [|left].
    + cbn. destruct (decide (id' = id)) as [-> | Hne].
      * rewrite lookup_insert_eq. cbn. exists b. split; [done|].
        rewrite Hs in Hs0. injection Hs0 as <-. by right; left.
      * rewrite lookup_insert_ne, Hs by done. eexists. by split; [|left].
  - destruct (upload_effect s3 env dto file uploadedById db)
      as [[_ ->] | (s0 & videoUrl & Hs0 & _ & _ & _ & _ & ->)].
    + exists (Shipment.status s). rewrite Hs. by split; [|left].
    + cbn. destruct (decide (UploadVideoDto.shipmentId dto = id)) as [Heq | Hne].
      * rewrite Heq, lookup_insert_eq. cbn. exists SEALED. split; [done|].
        right; right. split; [done|].
        exists (ProofVideo.mk (generatedVideoId env) id videoUrl uploadedById).
        split; [|done]. cbn. apply elem_of_app. right.
        by apply list_elem_of_singleton.
      * rewrite lookup_insert_ne, Hs by done. eexists. by split; [|left].
Qed.

(** A shipment that ends sealed walked the rest of the linear path from
    the stage it was at, or holds a video. *)
Lemma sealed_from_stage rs db id a :
  statusOf id db = Some a →
  statusOf id (serve s3 rs db) = Some SEALED →
  sublist (Some <$> pathToSealed a) (statusHistory s3 id rs db)
  ∨ hasVideo id (serve s3 rs db).
Proof.
  revert db a. induction rs as [|r rs IH]; intros db a Ha Hend.
  - cbn in *. rewrite Ha in Hend |- *. injection Hend as ->. by left.
  - rewrite serve_cons in *. cbn [statusHistory]. rewrite Ha.
    destruct (handle_status_step r db id a Ha) as (a' & Ha' & Hstep).
    destruct Hstep as [-> | [Hin | [-> Hv]]].
    + destruct (IH _ _ Ha' Hend) as [Hsub | Hv]; [left | by right].
      by apply sublist_cons.
    + destruct (decide (a' = FAILED)) as [-> | Hnf].
      { exfalso. unfold statusOf in *.
        destruct (shipments (handle s3 r db) !! id) as [s'|] eqn:Hs'; [|done].
        injection Ha' as Hst.
        rewrite (serve_frozen rs _ _ _ Hs' (or_intror Hst)) in Hend.
        cbn in Hend. by rewrite Hst in Hend. }
      destruct (IH _ _ Ha' Hend) as [Hsub | Hv]; [left | by right].
      destruct a; cbn in Hin;
        repeat (apply elem_of_cons in Hin as [-> | Hin]); try done;
        try (by apply elem_of_nil in Hin);
        cbn; by apply sublist_skip.
    + right. by apply serve_hasVideo.
Qed.

(** Status transitions add no video. *)
Lemma patches_keep_videos rs db :
  Forall isPatch rs → proofVideos (serve s3 rs db) = proofVideos db.
Proof.
  revert db. induction rs as [|r rs IH]; intros db Hrs; [done|].
  apply Forall_cons in Hrs as [Hr Hrs]. rewrite serve_cons, IH by done.
  destruct r as [id' dto|]; [|done]. cbn.
  by destruct (update_effect db id' dto) as [-> | (s0 & b & _ & _ & _ & ->)].
Qed.

End Histories.

(** X20: when requests are served one after another, none between the
    awaits of another: once a shipment is [SEALED] or [FAILED],
    [ShipmentsService.update] leaves the store as it was whatever it is
    asked; on a [SEALED] shipment every request is refused with the
    sealed-shipment error, before the transition is looked at; a request
    for another status on a [FAILED] shipment is refused with the
    invalid-transition error; and no sequence of such requests, updates or
    uploads, changes the shipment again. *)
Theorem terminal_shipment_immutable (s3 : S3Service.t) (db : Db) (id : string)
    (s : Shipment.t) :
  shipments db !! id = Some s →
  Shipment.status s = SEALED ∨ Shipment.status s = FAILED →
  (∀ dto,
     snd (ShipmentsService.update id dto db) = db
     ∧ (Shipment.status s = SEALED →
        fst (ShipmentsService.update id dto db)
        = Throw (mkException BadRequestException ShipmentsService.sealedMessage))
     ∧ (∀ b, UpdateShipmentDto.status dto = Some b → b ≠ Shipment.status s →
        fst (ShipmentsService.update id dto db)
        = Throw (mkException BadRequestException
                   (if decide (Shipment.status s = SEALED)
                    then ShipmentsService.sealedMessage
                    else ShipmentsService.invalidTransitionMessage
                           (Shipment.status s) b))))
  ∧ (∀ rs, shipments (serve s3 rs db) !! id = Some s).
Proof.
  intros Hs Hterm. split; [|intros rs; by apply serve_frozen].
  intros dto. split_and!.
  - destruct (update_effect db id dto) as [-> | (s0 & b & Hs0 & Hopen & Hb & _)];
      [done|].
    rewrite Hs in Hs0. injection Hs0 as <-.
    by apply (validTransitions_from_terminal _ b) in Hterm.
  - intros Hsealed. rewrite (update_found _ _ _ _ Hs).
    by rewrite decide_True.
  - intros b Hb Hne. destruct dto as [st]. cbn in Hb. subst st.
    pose proof (requestTransition_outcome_aux db id s b Hs Hne) as Haux.
    apply Haux. by apply validTransitions_from_terminal.
Qed.

Lemma terminal_shipment_immutable_witness :
  shipments
    (serve Sample.s3
       [PatchShipment "s1" (UpdateShipmentDto.mk (Some RECORDING));
        PostUpload Sample.env Sample.dto Sample.file "u1";
        PatchShipment "s1" (UpdateShipmentDto.mk None)]
       (Sample.dbIn FAILED)) !! "s1"
  = Some (Sample.shipmentIn FAILED).
Proof.
  apply (proj2 (terminal_shipment_immutable Sample.s3 (Sample.dbIn FAILED) "s1"
                  (Sample.shipmentIn FAILED) eq_refl (or_intror eq_refl))).
Defined.

(** C6 (as amended): a shipment created in [CREATED] that is [SEALED]
    after a sequence of status-transition and upload requests has been in
    [RECORDING] and then in [PROCESSING] before, in that order, unless an
    upload sealed it, in which case it holds a proof video: an upload
    seals from the stage the shipment is at.  Status transitions alone
    cannot skip a stage. *)
Theorem sealed_only_by_path_or_upload (s3 : S3Service.t) (id : string)
    (rs : list Request) (db : Db) :
  statusOf id db = Some CREATED →
  statusOf id (serve s3 rs db) = Some SEALED →
  (sublist [Some CREATED; Some RECORDING; Some PROCESSING; Some SEALED]
     (statusHistory s3 id rs db)
   ∨ hasVideo id (serve s3 rs db))
  ∧ (Forall isPatch rs → ¬ hasVideo id db →
     sublist [Some CREATED; Some RECORDING; Some PROCESSING; Some SEALED]
       (statusHistory s3 id rs db)).
Proof.
  intros Ha Hend.
  pose proof (sealed_from_stage s3 rs db id CREATED Ha Hend) as Hpath.
  split; [done|]. intros Hrs Hnv. destruct Hpath as [Hsub | Hv]; [done|].
  destruct Hnv. destruct Hv as (v & Hv & Hid). exists v. split; [|done].
  by rewrite (patches_keep_videos s3 rs db Hrs) in Hv.
Qed.

Lemma sealed_only_by_path_or_upload_witness :
  sublist [Some CREATED; Some RECORDING; Some PROCESSING; Some SEALED]
    (statusHistory Sample.s3 "s1"
       [PatchShipment "s1" (UpdateShipmentDto.mk (Some RECORDING));
        PatchShipment "s1" (UpdateShipmentDto.mk (Some SEALED));
        PatchShipment "s1" (UpdateShipmentDto.mk (Some PROCESSING));
        PatchShipment "s1" (UpdateShipmentDto.mk (Some SEALED))]
       (Sample.dbIn CREATED)).
Proof.
  refine (proj2 (sealed_only_by_path_or_upload Sample.s3 "s1" _ (Sample.dbIn CREATED)
                   _ _) _ _).
  - reflexivity.
  - reflexivity.
  - repeat constructor.
  - intros (v & Hv & _). by apply elem_of_nil in Hv.
Defined.

(** C6 (as stated) fails: an upload on a shipment still in [CREATED]
    returns and seals it; the shipment was never in [RECORDING] nor in
    [PROCESSING]. *)
Lemma sealed_without_stages_counterexample :
  VideosService.upload Sample.s3 Sample.env Sample.dto Sample.file "u1"
    (Sample.dbIn CREATED)
  = (Return Sample.video, Sample.dbWithVideo SEALED)
  ∧ statusHistory Sample.s3 "s1"
      [PostUpload Sample.env Sample.dto Sample.file "u1"] (Sample.dbIn CREATED)
    = [Some CREATED; Some SEALED]
  ∧ (Some RECORDING ∉ statusHistory Sample.s3 "s1"
       [PostUpload Sample.env Sample.dto Sample.file "u1"] (Sample.dbIn CREATED))
  ∧ (Some PROCESSING ∉ statusHistory Sample.s3 "s1"
       [PostUpload Sample.env Sample.dto Sample.file "u1"] (Sample.dbIn CREATED)).
Proof.
  split_and!; [reflexivity | reflexivity | by_decide | by_decide].
Qed.

(** ** The upload coordinator *)

Section Upload.

Import VideosService.

Lemma find_hasVideo shipmentId db :
  List.find (λ v, bool_decide (ProofVideo.shipmentId v = shipmentId)) (proofVideos db)
  = None
  ↔ ¬ hasVideo shipmentId db.
Proof.
  split.
  - intros Hfind (v & Hv & Hsid). apply list_elem_of_In in Hv.
    apply (find_none _ _ Hfind) in Hv. by rewrite bool_decide_eq_false in Hv.
  - intros Hno. destruct (List.find _ _) as [v|] eqn:Hfind; [|done].
    apply find_some in Hfind as [Hv Hsid]. destruct Hno. exists v.
    split; [by apply list_elem_of_In | by apply bool_decide_eq_true in Hsid].
Qed.

Lemma hasVideo_filter_nil shipmentId db :
  ¬ hasVideo shipmentId db →
  filter (λ v, ProofVideo.shipmentId v = shipmentId) (proofVideos db) = [].
Proof.
  intros Hno. destruct (filter _ _) as [|v l] eqn:Hf; [done|].
  assert (v ∈ filter (λ v, ProofVideo.shipmentId v = shipmentId) (proofVideos db))
    as Hv by (rewrite Hf; apply list_elem_of_here).
  apply list_elem_of_filter in Hv as [Hsid Hv]. destruct Hno. by exists v.
Qed.

(** The guards let through exactly the shipments that exist, are neither
    sealed nor failed, and have no video. *)
Lemma uploadChecks_pass dto db s :
  uploadChecks dto db = (Return s, db)
  ↔ shipments db !! UploadVideoDto.shipmentId dto = Some s
    ∧ Shipment.status s ≠ SEALED ∧ Shipment.status s ≠ FAILED
    ∧ ¬ hasVideo (UploadVideoDto.shipmentId dto) db.
Proof.
  split.
  - intros H. by apply uploadChecks_return in H as (_ & ? & ? & ? & ?).
  - intros (Hs & Hns & Hnf & Hnv). rewrite uploadChecks_unfold. cbn.
    apply find_hasVideo in Hnv. rewrite Hnv, Hs.
    by rewrite !decide_False.
Qed.

Lemma upload_checks_throw s3 env dto file uploadedById db e db' :
  uploadChecks dto db = (Throw e, db') →
  upload s3 env dto file uploadedById db = (Throw e, db).
Proof.
  intros Hchk. unfold upload, bind. rewrite Hchk.
  pose proof (uploadChecks_reads dto db) as Hrd. rewrite Hchk in Hrd. cbn in Hrd.
  by subst db'.
Qed.

Lemma upload_past_checks s3 env dto file uploadedById db s :
  uploadChecks dto db = (Return s, db) →
  upload s3 env dto file uploadedById db
  = uploadAndSeal s3 env dto file uploadedById db.
Proof. intros Hchk. unfold upload, bind. by rewrite Hchk. Qed.


End Upload.



(** C7: when [VideosService.upload] returns, the shipment is [SEALED],
    the video it returns is the one video stored for that shipment, and
    this video carries the shipment id, the uploader and the URL the blob
    store answered. *)
Theorem upload_success (s3 : S3Service.t) (env : UploadEnv)
    (dto : UploadVideoDto.t) (file : MulterFile.t) (uploadedById : string)
    (db db' : Db) (video : ProofVideo.t) :
  VideosService.upload s3 env dto file uploadedById db = (Return video, db') →
  let shipmentId := UploadVideoDto.shipmentId dto in
  statusOf shipmentId db' = Some SEALED
  ∧ filter (λ v, ProofVideo.shipmentId v = shipmentId) (proofVideos db') = [video]
  ∧ proofVideos db' = (proofVideos db ++ [video])%list
  ∧ ProofVideo.shipmentId video = shipmentId
  ∧ ProofVideo.uploadedById video = uploadedById
  ∧ S3Service.uploadFile s3 env file "proof-videos" = Return (ProofVideo.videoUrl video).
Proof.
  intros Hup shipmentId. subst shipmentId.
  destruct (upload_effect s3 env dto file uploadedById db)
    as [[Hthrow _] | (s & videoUrl & Hs & _ & _ & Hnv & Hs3 & Hr)].
  { rewrite Hup in Hthrow. done. }
  rewrite Hup in Hr. injection Hr as -> ->. cbn.
  split_and!; try done.
  - unfold statusOf, sealedBy. cbn. by rewrite lookup_insert_eq.
  - rewrite filter_app, (hasVideo_filter_nil _ _ Hnv). cbn.
    by rewrite decide_True.
Qed.

Lemma upload_success_witness :
  statusOf "s1" (Sample.dbWithVideo SEALED) = Some SEALED
  ∧ filter (λ v, ProofVideo.shipmentId v = "s1") (proofVideos (Sample.dbWithVideo SEALED))
    = [Sample.video].
Proof.
  destruct (upload_success Sample.s3 Sample.env Sample.dto Sample.file "u1"
              (Sample.dbIn PROCESSING) (Sample.dbWithVideo SEALED) Sample.video)
    as (Hst & Hone & _).
  - reflexivity.
  - by split.
Defined.

(** C8: when the blob store rejects the file of an upload that got past
    the guards, [VideosService.upload] throws the upload-failed error with
    the store's message and leaves the database as it was: no video row,
    the shipment as before; the same upload tried again meets the same
    database. *)
Theorem upload_storage_failure (s3 : S3Service.t) (env : UploadEnv)
    (dto : UploadVideoDto.t) (file : MulterFile.t) (uploadedById : string)
    (db : Db) (s : Shipment.t) (message : string) :
  sendError env = Some message →
  shipments db !! UploadVideoDto.shipmentId dto = Some s →
  Shipment.status s ≠ SEALED →
  Shipment.status s ≠ FAILED →
  ¬ hasVideo (UploadVideoDto.shipmentId dto) db →
  VideosService.upload s3 env dto file uploadedById db
  = (Throw (mkException InternalServerErrorException
              ("Failed to upload file to S3: " +:+ message)), db)
  ∧ ∀ env',
      VideosService.upload s3 env' dto file uploadedById
        (snd (VideosService.upload s3 env dto file uploadedById db))
      = VideosService.upload s3 env' dto file uploadedById db.
Proof.
  intros Hsend Hs Hns Hnf Hnv.
  assert (VideosService.upload s3 env dto file uploadedById db
          = (Throw (mkException InternalServerErrorException
                      ("Failed to upload file to S3: " +:+ message)), db)) as Hr.
  { rewrite (upload_past_checks _ _ _ _ _ _ s) by (by apply uploadChecks_pass).
    rewrite (uploadAndSeal_unfold _ _ _ _ _ _ _ Hs). cbn.
    unfold S3Service.uploadFile. by rewrite Hsend. }
  split; [done|]. intros env'. by rewrite Hr.
Qed.

Lemma upload_storage_failure_witness :
  VideosService.upload Sample.s3 Sample.envDown Sample.dto Sample.file "u1"
    (Sample.dbIn PROCESSING)
  = (Throw (mkException InternalServerErrorException
              "Failed to upload file to S3: socket hang up"),
     Sample.dbIn PROCESSING).
Proof.
  refine (proj1 (upload_storage_failure Sample.s3 Sample.envDown Sample.dto
                   Sample.file "u1" (Sample.dbIn PROCESSING)
                   (Sample.shipmentIn PROCESSING) "socket hang up" _ _ _ _ _)).
  - reflexivity.
  - reflexivity.
  - discriminate.
  - discriminate.
  - intros (v & Hv & _). by apply elem_of_nil in Hv.
Defined.

(** ** The upload, await by await *)

(** Resumed five times with nothing in between, the task settles with
    the value of [upload] and leaves the store of [upload]. *)
Lemma runTurns_alone (s3 : S3Service.t) (env : UploadEnv) (dto : UploadVideoDto.t)
    (file : MulterFile.t) (uploadedById : string) (db : Db) :
  runTurns s3 env dto file uploadedById (replicate 5 TurnUpload) db
  = (Settled (fst (VideosService.upload s3 env dto file uploadedById db)),
     snd (VideosService.upload s3 env dto file uploadedById db)).
Proof.
  unfold runTurns, VideosService.upload, VideosService.uploadChecks,
    VideosService.uploadAndSeal, VideosRepository.findByShipmentId,
    ShipmentsRepository.findById, S3Service.uploadFile, VideosRepository.create,
    ShipmentsRepository.update, bind, lift, throw, ret.
  cbn. destruct (List.find _ _); [done|]. cbn.
  destruct (shipments db !! _) as [s|] eqn:Hs; [|done]. cbn.
  destruct (decide (Shipment.status s = SEALED)); [done|].
  destruct (decide (Shipment.status s = FAILED)); [done|]. cbn.
  unfold S3Service.uploadFile. destruct (sendError env); [done|]. cbn.
  unfold VideosRepository.create. cbn.
  case_bool_decide; [done|]. case_bool_decide; [|done]. cbn.
  unfold ShipmentsRepository.update. cbn. by rewrite Hs.
Qed.

(** C2, on the code: the insert of the video and the seal are two calls
    on the store, each committed on its own.  For a shipment in
    [PROCESSING], once the insert has returned the store holds the video
    while the shipment is still [PROCESSING]; a status request served at
    this point moves the shipment to [FAILED], video attached; and the
    upload, resumed, seals the shipment that was just failed. *)
Theorem upload_insert_then_seal_not_atomic :
  let run := runTurns Sample.s3 Sample.env Sample.dto Sample.file "u1" in
  let fail := TurnRequest (PatchShipment "s1" (UpdateShipmentDto.mk (Some FAILED))) in
  run (replicate 4 TurnUpload) (Sample.dbIn PROCESSING)
  = (AwaitSeal Sample.video, Sample.dbWithVideo PROCESSING)
  ∧ hasVideo "s1" (Sample.dbWithVideo PROCESSING)
  ∧ statusOf "s1" (Sample.dbWithVideo PROCESSING) = Some PROCESSING
  ∧ run (replicate 4 TurnUpload ++ [fail])%list (Sample.dbIn PROCESSING)
    = (AwaitSeal Sample.video, Sample.dbWithVideo FAILED)
  ∧ run (replicate 4 TurnUpload ++ [fail; TurnUpload])%list (Sample.dbIn PROCESSING)
    = (Settled (Return Sample.video), Sample.dbWithVideo SEALED).
Proof.
  cbv zeta. split_and!; try reflexivity.
  exists Sample.video. split; [apply list_elem_of_here | reflexivity].
Qed.

(** C3, on the code: a shipment in a terminal status is changed again.
    The seal of an upload writes [SEALED] to whatever row it finds, with
    no look at the status the row has by then.  An upload let through
    while the shipment was in [PROCESSING] and suspended before its seal,
    a request that moves the shipment to [FAILED] being served and
    answered in between, turns the failed shipment into a sealed one. *)
Theorem terminal_shipment_changed_by_pending_seal :
  let run := runTurns Sample.s3 Sample.env Sample.dto Sample.file "u1" in
  let fail := PatchShipment "s1" (UpdateShipmentDto.mk (Some FAILED)) in
  run (replicate 4 TurnUpload) (Sample.dbIn PROCESSING)
  = (AwaitSeal Sample.video, Sample.dbWithVideo PROCESSING)
  ∧ ShipmentsService.update "s1" (UpdateShipmentDto.mk (Some FAILED))
      (Sample.dbWithVideo PROCESSING)
    = (Return (Sample.shipmentIn FAILED), Sample.dbWithVideo FAILED)
  ∧ shipments (Sample.dbWithVideo FAILED) !! "s1" = Some (Sample.shipmentIn FAILED)
  ∧ resume Sample.s3 Sample.env Sample.dto Sample.file "u1"
      (AwaitSeal Sample.video) (Sample.dbWithVideo FAILED)
    = (Settled (Return Sample.video), Sample.dbWithVideo SEALED)
  ∧ run (replicate 4 TurnUpload ++ [TurnRequest fail; TurnUpload])%list
      (Sample.dbIn PROCESSING)
    = (Settled (Return Sample.video), Sample.dbWithVideo SEALED)
  ∧ shipments (Sample.dbWithVideo SEALED) !! "s1" = Some (Sample.shipmentIn SEALED)
  ∧ Sample.shipmentIn SEALED ≠ Sample.shipmentIn FAILED
  ∧ ∀ (db : Db) (s : Shipment.t) (video : ProofVideo.t),
      shipments db !! "s1" = Some s →
      resume Sample.s3 Sample.env Sample.dto Sample.file "u1" (AwaitSeal video) db
      = (Settled (Return video),
         set_shipments db (<["s1" := Shipment.with_status s SEALED]> (shipments db))).
Proof.
  cbv zeta. split_and!; try reflexivity.
  - discriminate.
  - intros db s video Hs. cbn. unfold settle, ShipmentsRepository.update. cbn.
    by rewrite Hs.
Qed.

(** ** Share links *)

Section ShareLinks.

Import ShareLinksService.

Lemma validateToken_unfold now token db :
  validateToken now token db =
    match findLink token db with
    | None => (Throw (mkException NotFoundException "Invalid share link"), db)
    | Some l =>
        if decide (now > ShareLink.expiresAt l)%Z
        then (Throw (mkException UnauthorizedException "Share link has expired"), db)
        else (Return (includeOf l db), db)
    end.
Proof.
  unfold validateToken, ShareLinksRepository.findByToken, findLink, bind, throw, ret.
  cbn. destruct (List.find _ (shareLinks db)); [|done]. cbn.
  by destruct (decide _).
Qed.

Lemma findLink_None token db :
  findLink token db = None ↔ ∀ l, l ∈ shareLinks db → ShareLink.token l ≠ token.
Proof.
  unfold findLink. split.
  - intros Hfind l Hl. apply list_elem_of_In in Hl.
    apply (find_none _ _ Hfind) in Hl. by apply bool_decide_eq_false in Hl.
  - intros Hno. destruct (List.find _ _) as [l|] eqn:Hfind; [|done].
    apply find_some in Hfind as [Hl Htok]. apply bool_decide_eq_true in Htok.
    apply list_elem_of_In in Hl. by destruct (Hno l Hl).
Qed.

Lemma findLink_Some token db l :
  findLink token db = Some l → l ∈ shareLinks db ∧ ShareLink.token l = token.
Proof.
  unfold findLink. intros Hfind. apply find_some in Hfind as [Hl Htok].
  split; [by apply list_elem_of_In | by apply bool_decide_eq_true in Htok].
Qed.

(** Under the unique index on [token], the link found is the link. *)
Lemma findLink_unique token db l :
  NoDup (ShareLink.token <$> shareLinks db) →
  l ∈ shareLinks db → ShareLink.token l = token →
  findLink token db = Some l.
Proof.
  unfold findLink. induction (shareLinks db) as [|l0 ls IH]; intros Hnd Hl Htok.
  - by apply elem_of_nil in Hl.
  - cbn in *. apply NoDup_cons in Hnd as [Hfresh Hnd].
    apply elem_of_cons in Hl as [-> | Hl].
    + by rewrite bool_decide_eq_true_2.
    + rewrite bool_decide_eq_false_2; [by apply IH|].
      intros Heq. apply Hfresh. rewrite Heq, <- Htok.
      by apply list_elem_of_fmap_2.
Qed.

End ShareLinks.

(** C9: under the unique index on [token], [validateToken] has exactly
    three outcomes, none of which writes to the store: the not-found error
    when no link has this token; the expired error when the link with this
    token has [now > expiresAt], the link staying where it is; and
    otherwise the link with the proof video it is bound to. *)
Theorem validateToken_outcomes (now : Z) (token : string) (db : Db) :
  NoDup (ShareLink.token <$> shareLinks db) →
  let r := ShareLinksService.validateToken now token db in
  ((∀ l, l ∈ shareLinks db → ShareLink.token l ≠ token) →
   r = (Throw (mkException NotFoundException "Invalid share link"), db))
  ∧ (∀ l, l ∈ shareLinks db → ShareLink.token l = token →
       (now > ShareLink.expiresAt l)%Z →
       r = (Throw (mkException UnauthorizedException "Share link has expired"), db)
       ∧ l ∈ shareLinks (snd r))
  ∧ (∀ l, l ∈ shareLinks db → ShareLink.token l = token →
       ¬ (now > ShareLink.expiresAt l)%Z →
       r = (Return (includeOf l db), db)
       ∧ link (includeOf l db) = l
       ∧ (∀ v, proofVideo (includeOf l db) = Some v →
            v ∈ proofVideos db ∧ ProofVideo.id v = ShareLink.proofVideoId l)
       ∧ ((∃ v, v ∈ proofVideos db ∧ ProofVideo.id v = ShareLink.proofVideoId l) →
          is_Some (proofVideo (includeOf l db))))
  ∧ ((∀ l, l ∈ shareLinks db → ShareLink.token l ≠ token)
     ∨ (∃ l, l ∈ shareLinks db ∧ ShareLink.token l = token
             ∧ (now > ShareLink.expiresAt l)%Z)
     ∨ (∃ l, l ∈ shareLinks db ∧ ShareLink.token l = token
             ∧ ¬ (now > ShareLink.expiresAt l)%Z)).
Proof.
  intros Huniq r. subst r. rewrite validateToken_unfold. split_and!.
  - intros Hno. apply findLink_None in Hno. by rewrite Hno.
  - intros l Hl Htok Hexp. rewrite (findLink_unique _ _ _ Huniq Hl Htok).
    by rewrite decide_True.
  - intros l Hl Htok Hlive. rewrite (findLink_unique _ _ _ Huniq Hl Htok).
    rewrite decide_False by done. split_and!; try done.
    + unfold includeOf. cbn. intros v Hfind. apply find_some in Hfind as [Hv Hid].
      split; [by apply list_elem_of_In | by apply bool_decide_eq_true in Hid].
    + unfold includeOf. cbn. intros (v & Hv & Hid).
      destruct (List.find _ _) as [w|] eqn:Hfind; [done|].
      apply list_elem_of_In in Hv. apply (find_none _ _ Hfind) in Hv.
      by apply bool_decide_eq_false in Hv.
  - destruct (findLink token db) as [l|] eqn:Hfind.
    + apply findLink_Some in Hfind as [Hl Htok].
      destruct (decide (now > ShareLink.expiresAt l)%Z);
        [right; left | right; right]; by exists l.
    + left. by apply findLink_None.
Qed.

Lemma validateToken_outcomes_witness :
  ShareLinksService.validateToken 2000 "tok-a" Sample.dbLinks
  = (Throw (mkException UnauthorizedException "Share link has expired"), Sample.dbLinks)
  ∧ Sample.linkA ∈ shareLinks
      (snd (ShareLinksService.validateToken 2000 "tok-a" Sample.dbLinks)).
Proof.
  assert (NoDup (ShareLink.token <$> shareLinks Sample.dbLinks)) as Huniq
    by by_decide.
  destruct (validateToken_outcomes 2000 "tok-a" Sample.dbLinks Huniq)
    as (_ & Hexpired & _).
  apply (Hexpired Sample.linkA); [apply list_elem_of_here | reflexivity | reflexivity].
Defined.

(** C10: [cleanupExpired] always returns; it removes the links with
    [expiresAt < now] and no other, keeps the rest in place, touches no
    other table, and returns the number of links removed; called again at
    once it returns 0 and removes nothing. *)
Theorem cleanupExpired_outcome (now : Z) (db : Db) :
  ∃ db',
    ShareLinksService.cleanupExpired now db
    = (Return (mkBatchPayload
                 (length (filter (λ l, ShareLink.expiresAt l < now)%Z (shareLinks db)))),
       db')
    ∧ (∀ l, l ∈ shareLinks db' ↔ l ∈ shareLinks db ∧ ¬ (ShareLink.expiresAt l < now)%Z)
    ∧ length (shareLinks db)
      = (length (filter (λ l, ShareLink.expiresAt l < now)%Z (shareLinks db))
         + length (shareLinks db'))%nat
    ∧ users db' = users db ∧ shipments db' = shipments db
    ∧ proofVideos db' = proofVideos db
    ∧ ShareLinksService.cleanupExpired now db' = (Return (mkBatchPayload 0), db').
Proof.
  eexists. split; [reflexivity|]. cbn. split_and!; try done.
  - intros l. rewrite list_elem_of_filter. tauto.
  - induction (shareLinks db) as [|l ls IH]; [done|].
    rewrite !filter_cons. destruct (decide (ShareLink.expiresAt l < now)%Z).
    + rewrite decide_False by tauto. cbn. by rewrite IH.
    + rewrite decide_True by done. cbn. rewrite IH. lia.
  - unfold ShareLinksService.cleanupExpired, ShareLinksRepository.deleteExpired. cbn.
    assert (∀ ls : list ShareLink.t,
              filter (λ l, ShareLink.expiresAt l < now)%Z
                (filter (λ l, ¬ (ShareLink.expiresAt l < now)%Z) ls) = []) as Hnone.
    { intros ls. induction ls as [|l ls IH]; [done|].
      rewrite filter_cons. destruct (decide (¬ (ShareLink.expiresAt l < now)%Z)).
      - rewrite filter_cons, decide_False by done. done.
      - done. }
    rewrite Hnone. cbn. f_equal. unfold set_shareLinks. cbn. f_equal.
    induction (shareLinks db) as [|l ls IH]; [done|].
    rewrite filter_cons. destruct (decide (¬ (ShareLink.expiresAt l < now)%Z)).
    + rewrite filter_cons, decide_True by done. by rewrite IH.
    + done.
Qed.

(** ** The scenario of the specification, run on the sample store *)

(** [CREATED] to [RECORDING] succeeds; [SEALED] asked directly is refused
    with the legal next states; [PROCESSING] succeeds; the upload returns
    the video and seals; a later request for [FAILED] is refused as the
    shipment is sealed. *)
Example lifecycle_scenario :
  let patch st := PatchShipment "s1" (UpdateShipmentDto.mk (Some st)) in
  let db1 := handle Sample.s3 (patch RECORDING) (Sample.dbIn CREATED) in
  let db2 := handle Sample.s3 (patch PROCESSING) db1 in
  db1 = Sample.dbIn RECORDING
  ∧ ShipmentsService.update "s1" (UpdateShipmentDto.mk (Some SEALED)) db1
    = (Throw (mkException BadRequestException
         "Invalid state transition: Cannot move from RECORDING to SEALED. Allowed transitions: PROCESSING, FAILED"),
       db1)
  ∧ db2 = Sample.dbIn PROCESSING
  ∧ VideosService.upload Sample.s3 Sample.env Sample.dto Sample.file "u1" db2
    = (Return Sample.video, Sample.dbWithVideo SEALED)
  ∧ ShipmentsService.update "s1" (UpdateShipmentDto.mk (Some FAILED))
      (Sample.dbWithVideo SEALED)
    = (Throw (mkException BadRequestException
         "Cannot modify a sealed shipment. Sealed shipments are immutable."),
       Sample.dbWithVideo SEALED).
Proof. cbv zeta. split_and!; reflexivity. Qed.

(** * Further properties of the code *)

(** ** Shipments under sequences of requests *)

Section ShipmentRows.

Variable s3 : S3Service.t.

Lemma with_status_twice (s : Shipment.t) (a b : ShipmentStatus) :
  Shipment.with_status (Shipment.with_status s a) b = Shipment.with_status s b.
Proof. done. Qed.

(** One request leaves a shipment row as it is up to its status, and
    creates no row. *)
Lemma handle_row r db id :
  match shipments db !! id with
  | Some s => ∃ st, shipments (handle s3 r db) !! id = Some (Shipment.with_status s st)
  | None => shipments (handle s3 r db) !! id = None
  end.
Proof.
  assert (∀ db' : Db, db' = db →
            match shipments db !! id with
            | Some s => ∃ st, shipments db' !! id = Some (Shipment.with_status s st)
            | None => shipments db' !! id = None
            end) as Hsame.
  { intros db' ->. destruct (shipments db !! id) as [s|] eqn:Hs; [|done].
    exists (Shipment.status s). by rewrite with_status_same. }
  assert (∀ id' s0 st,
            shipments db !! id' = Some s0 →
            match shipments db !! id with
            | Some s =>
                ∃ st', <[id' := Shipment.with_status s0 st]> (shipments db) !! id
                       = Some (Shipment.with_status s st')
            | None => <[id' := Shipment.with_status s0 st]> (shipments db) !! id = None
            end) as Hins.
  { intros id' s0 st Hs0. destruct (decide (id' = id)) as [-> | Hne].
    - rewrite Hs0, lookup_insert_eq. by exists st.
    - rewrite lookup_insert_ne by done.
      destruct (shipments db !! id) as [s|] eqn:Hs; [|done].
      exists (Shipment.status s). by rewrite with_status_same. }
  destruct r as [id' dto | env dto file uploadedById]; cbn.
  - destruct (update_effect db id' dto) as [Heq | (s0 & b & Hs0 & _ & _ & ->)];
      [by apply Hsame | by apply Hins].
  - destruct (upload_effect s3 env dto file uploadedById db)
      as [[_ Heq] | (s0 & videoUrl & Hs0 & _ & _ & _ & _ & ->)];
      [by apply Hsame | by apply Hins].
Qed.

(** Status transitions and uploads write no video for a shipment that is
    sealed or failed. *)
Lemma handle_no_video r db id s :
  shipments db !! id = Some s →
  Shipment.status s = SEALED ∨ Shipment.status s = FAILED →
  ¬ hasVideo id db → ¬ hasVideo id (handle s3 r db).
Proof.
  intros Hs Hterm Hnv (v & Hv & Hid). apply Hnv.
  destruct r as [id' dto | env dto file uploadedById]; cbn in Hv.
  - destruct (update_effect db id' dto) as [Heq | (s0 & b & _ & _ & _ & Heq)];
      rewrite Heq in Hv; by exists v.
  - destruct (upload_effect s3 env dto file uploadedById db)
      as [[_ Heq] | (s0 & videoUrl & Hs0 & Hns & Hnf & _ & _ & Heq)];
      cbn in Heq; rewrite Heq in Hv; [by exists v|].
    cbn in Hv. apply elem_of_app in Hv as [Hv | Hv]; [by exists v|].
    apply list_elem_of_singleton in Hv. subst v. cbn in Hid.
    rewrite Hid, Hs in Hs0. injection Hs0 as <-. by destruct Hterm.
Qed.

Lemma handle_sealedIfVideo r db : sealedIfVideo db → sealedIfVideo (handle s3 r db).
Proof.
  intros Hinv. destruct r as [id' dto | env dto file uploadedById]; cbn.
  - destruct (update_effect db id' dto) as [-> | (s0 & b & Hs0 & Hopen & _ & ->)];
      [done|].
    intros v Hv. cbn in Hv. specialize (Hinv v Hv). unfold statusOf in *. cbn.
    destruct (decide (id' = ProofVideo.shipmentId v)) as [Heq | Hne];
      [|by rewrite lookup_insert_ne].
    rewrite <- Heq, Hs0 in Hinv. cbn in Hinv. by injection Hinv.
  - destruct (upload_effect s3 env dto file uploadedById db)
      as [[_ ->] | (s0 & videoUrl & Hs0 & _ & _ & Hnv & _ & ->)]; [done|].
    intros v Hv. cbn in Hv. unfold statusOf. cbn.
    apply elem_of_app in Hv as [Hv | Hv].
    + rewrite lookup_insert_ne; [by apply Hinv|].
      intros Heq. apply Hnv. by exists v.
    + apply list_elem_of_singleton in Hv. subst v. cbn.
      by rewrite lookup_insert_eq.
Qed.

(** The changes of status left in a history, by the stage it starts at. *)
Lemma changes_bounded rs db id a :
  statusOf id db = Some a →
  (changesFrom (Some a)
     (match rs with
      | [] => []
      | r :: rs' => statusHistory s3 id rs' (handle s3 r db)
      end) ≤ stagesLeft a)%nat.
Proof.
  revert db a. induction rs as [|r rs IH]; intros db a Ha; [cbn; lia|].
  destruct (handle_status_step s3 r db id a Ha) as (a' & Ha' & Hstep).
  assert (statusHistory s3 id rs (handle s3 r db)
          = Some a' :: match rs with
                       | [] => []
                       | r' :: rs' => statusHistory s3 id rs' (handle s3 r' (handle s3 r db))
                       end) as ->.
  { destruct rs; cbn; by rewrite Ha'. }
  cbn [changesFrom]. specialize (IH _ _ Ha').
  destruct (decide (Some a = Some a')) as [[= <-] | Hne]; [lia|].
  assert (stagesLeft a' < stagesLeft a)%nat; [|lia].
  assert (a ≠ a') as Hne' by congruence.
  destruct (decide (a = SEALED ∨ a = FAILED)) as [Hterm | Hopen].
  - exfalso. unfold statusOf in *.
    destruct (shipments db !! id) as [s|] eqn:Hs; [|done]. injection Ha as Hst.
    rewrite <- Hst in Hterm.
    rewrite (handle_frozen s3 r db id s Hs Hterm) in Ha'. cbn in Ha'. congruence.
  - destruct Hstep as [-> | [Hin | [-> _]]]; [done | |].
    + destruct a; cbn in Hin;
        repeat (apply elem_of_cons in Hin as [-> | Hin]); cbn; try lia;
        by apply elem_of_nil in Hin.
    + destruct a; cbn; try lia; destruct Hopen; auto.
Qed.

End ShipmentRows.

(** X1: no sequence of status-transition and upload requests creates or
    removes a shipment, and none changes a column of a shipment other than
    its status. *)
Theorem requests_change_status_only (s3 : S3Service.t) (rs : list Request)
    (db : Db) (id : string) :
  match shipments db !! id with
  | Some s => ∃ st, shipments (serve s3 rs db) !! id = Some (Shipment.with_status s st)
  | None => shipments (serve s3 rs db) !! id = None
  end.
Proof.
  revert db. induction rs as [|r rs IH]; intros db.
  - cbn. destruct (shipments db !! id) as [s|] eqn:Hs; [|done].
    exists (Shipment.status s). by rewrite with_status_same.
  - rewrite serve_cons. pose proof (handle_row s3 r db id) as Hr.
    specialize (IH (handle s3 r db)).
    destruct (shipments db !! id) as [s|].
    + destruct Hr as [st Hr]. rewrite Hr in IH. destruct IH as [st' IH].
      exists st'. by rewrite IH.
    + by rewrite Hr in IH.
Qed.



(** X3: the status of a shipment changes at most three times over any
    sequence of requests, and at most as often as stages are left from
    the one it is at: twice from [RECORDING], once from [PROCESSING],
    never from [SEALED] or [FAILED]. *)
Theorem status_changes_bounded (s3 : S3Service.t) (rs : list Request) (db : Db)
    (id : string) (a : ShipmentStatus) :
  statusOf id db = Some a →
  (changes (statusHistory s3 id rs db) ≤ stagesLeft a)%nat
  ∧ (changes (statusHistory s3 id rs db) ≤ 3)%nat.
Proof.
  intros Ha.
  assert (changes (statusHistory s3 id rs db) ≤ stagesLeft a)%nat as Hle.
  { destruct rs as [|r rs]; cbn [statusHistory changes]; rewrite Ha.
    - cbn. lia.
    - by apply (changes_bounded s3 (r :: rs) db id a). }
  split; [done|]. destruct a; cbn in Hle; lia.
Qed.

Lemma status_changes_bounded_witness :
  (changes (statusHistory Sample.s3 "s1"
              [PatchShipment "s1" (UpdateShipmentDto.mk (Some PROCESSING));
               PostUpload Sample.env Sample.dto Sample.file "u1";
               PatchShipment "s1" (UpdateShipmentDto.mk (Some FAILED))]
              (Sample.dbIn RECORDING)) ≤ 2)%nat.
Proof.
  apply (proj1 (status_changes_bounded Sample.s3 _ (Sample.dbIn RECORDING) "s1"
                  RECORDING eq_refl)).
Defined.

(** X4: served one after another, requests keep every shipment that has
    a video sealed. *)
Theorem video_implies_sealed (s3 : S3Service.t) (rs : list Request) (db : Db) :
  sealedIfVideo db → sealedIfVideo (serve s3 rs db).
Proof.
  revert db. induction rs as [|r rs IH]; intros db Hinv; [done|].
  rewrite serve_cons. by apply IH, handle_sealedIfVideo.
Qed.

Lemma video_implies_sealed_witness :
  sealedIfVideo
    (serve Sample.s3
       [PatchShipment "s1" (UpdateShipmentDto.mk (Some RECORDING));
        PostUpload Sample.env Sample.dto Sample.file "u1"]
       (Sample.dbIn CREATED)).
Proof.
  apply (video_implies_sealed Sample.s3 _ (Sample.dbIn CREATED)).
  intros v Hv. by apply elem_of_nil in Hv.
Defined.

(** X5: a shipment that is sealed or failed without a proof video never
    gets one: after any sequence of requests it still has none, and an
    upload for it is refused with a bad-request error that leaves the
    store as it was. *)
Theorem terminal_without_video (s3 : S3Service.t) (rs : list Request) (db : Db)
    (id : string) (s : Shipment.t) :
  shipments db !! id = Some s →
  Shipment.status s = SEALED ∨ Shipment.status s = FAILED →
  ¬ hasVideo id db →
  ¬ hasVideo id (serve s3 rs db)
  ∧ ∀ env file uploadedById,
      VideosService.upload s3 env (UploadVideoDto.mk id) file uploadedById
        (serve s3 rs db)
      = (Throw (mkException BadRequestException
                  (if decide (Shipment.status s = SEALED)
                   then VideosService.sealedMessage
                   else VideosService.failedMessage)), serve s3 rs db).
Proof.
  intros Hs Hterm Hnv.
  assert (¬ hasVideo id (serve s3 rs db)) as Hnv'.
  { revert db Hs Hnv. induction rs as [|r rs IH]; intros db Hs Hnv; [done|].
    rewrite serve_cons. apply IH.
    - by apply handle_frozen.
    - by apply (handle_no_video s3 r db id s). }
  split; [done|]. intros env file uploadedById.
  pose proof (serve_frozen s3 rs db id s Hs Hterm) as Hs'.
  eapply upload_checks_throw. rewrite uploadChecks_unfold. cbn.
  apply find_hasVideo in Hnv'. rewrite Hnv', Hs'.
  destruct (decide (Shipment.status s = SEALED)); [done|].
  destruct Hterm as [|Hf]; [done|]. by rewrite decide_True.
Qed.

Lemma terminal_without_video_witness :
  ¬ hasVideo "s1"
      (serve Sample.s3 [PostUpload Sample.env Sample.dto Sample.file "u1"]
         (Sample.dbIn SEALED)).
Proof.
  refine (proj1 (terminal_without_video Sample.s3 _ (Sample.dbIn SEALED) "s1"
                   (Sample.shipmentIn SEALED) _ _ _)).
  - reflexivity.
  - by left.
  - intros (v & Hv & _). by apply elem_of_nil in Hv.
Defined.

(** ** Uploads and the video table *)

Section VideoTable.

Variable s3 : S3Service.t.

(** Everything a returning upload tells of the store it ran on. *)
Lemma upload_return_inv env dto file uploadedById db v db' :
  VideosService.upload s3 env dto file uploadedById db = (Return v, db') →
  ∃ s videoUrl,
    shipments db !! UploadVideoDto.shipmentId dto = Some s
    ∧ ¬ hasVideo (UploadVideoDto.shipmentId dto) db
    ∧ ¬ Exists (λ w, ProofVideo.id w = generatedVideoId env
                     ∨ ProofVideo.shipmentId w = UploadVideoDto.shipmentId dto)
          (proofVideos db)
    ∧ uploadedById ∈ users db
    ∧ v = ProofVideo.mk (generatedVideoId env) (UploadVideoDto.shipmentId dto)
            videoUrl uploadedById
    ∧ db' = sealedBy env (UploadVideoDto.shipmentId dto) videoUrl uploadedById s db.
Proof.
  unfold VideosService.upload, bind.
  destruct (VideosService.uploadChecks dto db) as [[s|e] db0] eqn:Hchk; [|done].
  apply uploadChecks_return in Hchk as (-> & Hs & _ & _ & Hnv).
  rewrite (uploadAndSeal_unfold _ _ _ _ _ _ _ Hs). cbn.
  destruct (S3Service.uploadFile _ _ _ _) as [videoUrl|e]; [|done].
  case_bool_decide as Hex; [done|]. case_bool_decide as Hu; [|done].
  intros [= <- <-]. by exists s, videoUrl.
Qed.

(** A request removes no video row and rewrites none: the table grows
    at its end. *)
Lemma handle_videos_grow r db :
  ∃ l, proofVideos (handle s3 r db) = (proofVideos db ++ l)%list.
Proof.
  destruct r as [id' dto | env dto file uploadedById]; cbn.
  - destruct (update_effect db id' dto) as [-> | (s0 & b & _ & _ & _ & ->)];
      exists []; by rewrite app_nil_r.
  - destruct (upload_effect s3 env dto file uploadedById db)
      as [[_ ->] | (s0 & videoUrl & _ & _ & _ & _ & _ & ->)].
    + exists []. by rewrite app_nil_r.
    + by eexists.
Qed.

Lemma serve_videos_grow rs db :
  ∃ l, proofVideos (serve s3 rs db) = (proofVideos db ++ l)%list.
Proof.
  revert db. induction rs as [|r rs IH]; intros db.
  - exists []. by rewrite app_nil_r.
  - rewrite serve_cons. destruct (IH (handle s3 r db)) as [l Hl].
    destruct (handle_videos_grow r db) as [l0 Hl0].
    exists (l0 ++ l)%list. by rewrite Hl, Hl0, app_assoc.
Qed.

Lemma find_app_Some {A} (f : A → bool) (l1 l2 : list A) (x : A) :
  List.find f l1 = Some x → List.find f (l1 ++ l2) = Some x.
Proof.
  induction l1 as [|y l1 IH]; [done|]. cbn. destruct (f y); [done | apply IH].
Qed.

Lemma find_snoc_fresh {A} (f : A → bool) (l : list A) (x : A) :
  f x = true → (∀ w, w ∈ l → f w = false) → List.find f (l ++ [x]) = Some x.
Proof.
  intros Hx Hold. induction l as [|w ws IH]; cbn.
  - by rewrite Hx.
  - rewrite (Hold w) by apply list_elem_of_here. apply IH.
    intros w' Hw'. apply Hold. by apply list_elem_of_further.
Qed.

End VideoTable.



(** X7: once an upload for a shipment has returned, every later upload
    for that shipment, after any requests in between, throws the conflict
    error and writes nothing. *)
Theorem upload_once (s3 : S3Service.t) (env : UploadEnv) (dto : UploadVideoDto.t)
    (file : MulterFile.t) (uploadedById : string) (db db' : Db) (v : ProofVideo.t) :
  VideosService.upload s3 env dto file uploadedById db = (Return v, db') →
  ∀ rs env' file' uploadedById',
    VideosService.upload s3 env' dto file' uploadedById' (serve s3 rs db')
    = (Throw (mkException ConflictException
                (VideosService.conflictMessage (UploadVideoDto.shipmentId dto))),
       serve s3 rs db').
Proof.
  intros Hup rs env' file' uploadedById'.
  apply upload_return_inv in Hup as (s & videoUrl & _ & _ & _ & _ & -> & ->).
  assert (hasVideo (UploadVideoDto.shipmentId dto)
            (serve s3 rs (sealedBy env (UploadVideoDto.shipmentId dto) videoUrl
                            uploadedById s db))) as Hv.
  { apply serve_hasVideo.
    exists (ProofVideo.mk (generatedVideoId env) (UploadVideoDto.shipmentId dto)
              videoUrl uploadedById).
    split; [|done]. cbn. apply elem_of_app. right. by apply list_elem_of_singleton. }
  eapply upload_checks_throw. rewrite uploadChecks_unfold. cbn.
  destruct (List.find _ _) eqn:Hfind; [done|]. by apply find_hasVideo in Hfind.
Qed.

Lemma upload_once_witness :
  VideosService.upload Sample.s3 Sample.env Sample.dto Sample.file "u1"
    (serve Sample.s3 [PatchShipment "s1" (UpdateShipmentDto.mk (Some FAILED))]
       (Sample.dbWithVideo SEALED))
  = (Throw (mkException ConflictException
              (VideosService.conflictMessage "s1")),
     serve Sample.s3 [PatchShipment "s1" (UpdateShipmentDto.mk (Some FAILED))]
       (Sample.dbWithVideo SEALED)).
Proof.
  apply (upload_once Sample.s3 Sample.env Sample.dto Sample.file "u1"
           (Sample.dbIn CREATED) (Sample.dbWithVideo SEALED) Sample.video).
  reflexivity.
Defined.

(** X8: the video an upload returns is the one [findByShipmentId] and
    [findById] return from then on, after any later requests; no request
    removes or rewrites a video row. *)
Theorem uploaded_video_found (s3 : S3Service.t) (env : UploadEnv)
    (dto : UploadVideoDto.t) (file : MulterFile.t) (uploadedById : string)
    (db db' : Db) (v : ProofVideo.t) :
  VideosService.upload s3 env dto file uploadedById db = (Return v, db') →
  ∀ rs,
    VideosService.findByShipmentId (UploadVideoDto.shipmentId dto) (serve s3 rs db')
    = (Return v, serve s3 rs db')
    ∧ VideosService.findById (ProofVideo.id v) (serve s3 rs db')
      = (Return v, serve s3 rs db')
    ∧ ∃ l, proofVideos (serve s3 rs db') = (proofVideos db ++ [v] ++ l)%list.
Proof.
  intros Hup rs.
  apply upload_return_inv in Hup as (s & videoUrl & _ & _ & Hfresh & _ & -> & ->).
  destruct (serve_videos_grow s3 rs
              (sealedBy env (UploadVideoDto.shipmentId dto) videoUrl uploadedById s db))
    as [l Hl]. cbn in Hl.
  set (v := ProofVideo.mk (generatedVideoId env) (UploadVideoDto.shipmentId dto)
              videoUrl uploadedById) in *.
  pose proof (λ f, find_snoc_fresh f (proofVideos db) v) as Hfind.
  split_and!.
  - unfold VideosService.findByShipmentId, VideosRepository.findByShipmentId, bind, ret.
    cbn. rewrite Hl. erewrite find_app_Some; [done|]. apply Hfind.
    + by apply bool_decide_eq_true.
    + intros w Hw. apply bool_decide_eq_false. intros Heq. apply Hfresh.
      apply Exists_exists. exists w. split; [done | by right].
  - unfold VideosService.findById, VideosRepository.findById, bind, ret.
    cbn. rewrite Hl. erewrite find_app_Some; [done|]. apply Hfind.
    + by apply bool_decide_eq_true.
    + intros w Hw. apply bool_decide_eq_false. intros Heq. apply Hfresh.
      apply Exists_exists. exists w. split; [done | by left].
  - exists l. by rewrite Hl, <- app_assoc.
Qed.

Lemma uploaded_video_found_witness :
  VideosService.findByShipmentId "s1"
    (serve Sample.s3 [PatchShipment "s1" (UpdateShipmentDto.mk (Some FAILED))]
       (Sample.dbWithVideo SEALED))
  = (Return Sample.video,
     serve Sample.s3 [PatchShipment "s1" (UpdateShipmentDto.mk (Some FAILED))]
       (Sample.dbWithVideo SEALED)).
Proof.
  apply (uploaded_video_found Sample.s3 Sample.env Sample.dto Sample.file "u1"
           (Sample.dbIn CREATED) (Sample.dbWithVideo SEALED) Sample.video).
  reflexivity.
Defined.

(** ** Keys and foreign keys of the video table under any schedule *)

Section Consistency.

Variable s3 : S3Service.t.

(** A resumption leaves the store as it was, inserts the video row past
    the constraints of the schema, or writes the status of a shipment
    that exists. *)
Lemma resume_effect env dto file uploadedById t db :
  let shipmentId := UploadVideoDto.shipmentId dto in
  let db' := snd (resume s3 env dto file uploadedById t db) in
  db' = db
  ∨ (∃ videoUrl,
       ¬ Exists (λ w, ProofVideo.id w = generatedVideoId env
                      ∨ ProofVideo.shipmentId w = shipmentId) (proofVideos db)
       ∧ is_Some (shipments db !! shipmentId)
       ∧ uploadedById ∈ users db
       ∧ db' = set_proofVideos db
                 (proofVideos db ++
                    [ProofVideo.mk (generatedVideoId env) shipmentId videoUrl uploadedById]))
  ∨ (∃ s, shipments db !! shipmentId = Some s
          ∧ db' = set_shipments db
                    (<[shipmentId := Shipment.with_status s SEALED]> (shipments db))).
Proof.
  intros shipmentId db'. subst db' shipmentId.
  destruct t as [| | |videoUrl|video|o];
    unfold resume, settle, VideosRepository.findByShipmentId,
      ShipmentsRepository.findById, lift; cbn.
  - by left.
  - by left.
  - left. unfold S3Service.uploadFile. by destruct (sendError env).
  - unfold VideosRepository.create. cbn.
    case_bool_decide as Hex; [by left|].
    case_bool_decide as Hfk; [|by left].
    right; left. destruct Hfk as [Hs Hu]. by exists videoUrl.
  - unfold ShipmentsRepository.update. cbn.
    destruct (shipments db !! _) as [s|] eqn:Hs; [|by left].
    right; right. by exists s.
  - by left.
Qed.

Lemma storeConsistent_set_status db id s st :
  shipments db !! id = Some s →
  storeConsistent db →
  storeConsistent (set_shipments db (<[id := Shipment.with_status s st]> (shipments db))).
Proof.
  intros Hs (Hfk & Hu & Hsid & Hid). split_and!; try done.
  intros v Hv. cbn. apply lookup_insert_is_Some.
  destruct (decide (id = ProofVideo.shipmentId v)); [by left | right].
  split; [done | by apply Hfk].
Qed.

Lemma storeConsistent_insert_video db row :
  ¬ Exists (λ w, ProofVideo.id w = ProofVideo.id row
                 ∨ ProofVideo.shipmentId w = ProofVideo.shipmentId row) (proofVideos db) →
  is_Some (shipments db !! ProofVideo.shipmentId row) →
  ProofVideo.uploadedById row ∈ users db →
  storeConsistent db →
  storeConsistent (set_proofVideos db (proofVideos db ++ [row])).
Proof.
  intros Hfresh Hs Hu (Hfk & Husers & Hsid & Hid).
  assert (∀ w, w ∈ proofVideos db →
               ProofVideo.id w ≠ ProofVideo.id row
               ∧ ProofVideo.shipmentId w ≠ ProofVideo.shipmentId row) as Hne.
  { intros w Hw. split; intros Heq; apply Hfresh, Exists_exists; exists w; auto. }
  split_and!; cbn.
  - intros v Hv. cbn in Hv. apply elem_of_app in Hv as [Hv | Hv]; [by apply Hfk|].
    apply list_elem_of_singleton in Hv. by subst v.
  - intros v Hv. apply elem_of_app in Hv as [Hv | Hv]; [by apply Husers|].
    apply list_elem_of_singleton in Hv. by subst v.
  - rewrite fmap_app. apply NoDup_app. split_and!; [done | | apply NoDup_singleton].
    intros x Hx Hx'. apply list_elem_of_singleton in Hx'. subst x.
    apply list_elem_of_fmap in Hx as (w & Heq & Hw). by destruct (Hne w Hw).
  - rewrite fmap_app. apply NoDup_app. split_and!; [done | | apply NoDup_singleton].
    intros x Hx Hx'. apply list_elem_of_singleton in Hx'. subst x.
    apply list_elem_of_fmap in Hx as (w & Heq & Hw). by destruct (Hne w Hw).
Qed.

Lemma resume_consistent env dto file uploadedById t db :
  storeConsistent db →
  storeConsistent (snd (resume s3 env dto file uploadedById t db)).
Proof.
  intros Hinv.
  destruct (resume_effect env dto file uploadedById t db)
    as [-> | [(videoUrl & Hfresh & Hs & Hu & ->) | (s & Hs & ->)]]; [done | |].
  - by apply storeConsistent_insert_video.
  - by apply storeConsistent_set_status.
Qed.

Lemma resumes_consistent env dto file uploadedById n st :
  storeConsistent st.2 →
  storeConsistent
    (foldl (turn s3 env dto file uploadedById) st (replicate n TurnUpload)).2.
Proof.
  revert st. induction n as [|n IH]; intros st Hinv; [done|].
  cbn. apply IH. cbn. by apply resume_consistent.
Qed.

Lemma handle_consistent r db : storeConsistent db → storeConsistent (handle s3 r db).
Proof.
  intros Hinv. destruct r as [id' dto | env dto file uploadedById]; cbn.
  - destruct (update_effect db id' dto) as [-> | (s0 & b & Hs0 & _ & _ & ->)];
      [done | by apply storeConsistent_set_status].
  - pose proof (runTurns_alone s3 env dto file uploadedById db) as Hrun.
    apply (f_equal snd) in Hrun. cbn in Hrun. rewrite <- Hrun.
    by apply (resumes_consistent env dto file uploadedById 5 (AwaitExisting, db)).
Qed.

Lemma turns_consistent env dto file uploadedById us st :
  storeConsistent st.2 →
  storeConsistent (foldl (turn s3 env dto file uploadedById) st us).2.
Proof.
  revert st. induction us as [|u us IH]; intros st Hinv; [done|].
  cbn. apply IH. destruct u as [|r]; cbn.
  - by apply resume_consistent.
  - by apply handle_consistent.
Qed.

End Consistency.

(** X9: the keys and foreign keys of the video table hold after any
    sequence of requests, and after any schedule that serves other
    requests, uploads for the same shipment among them, between the awaits
    of an upload in flight: at most one video per shipment and per id,
    each for a shipment and an uploader that exist. *)
Theorem store_stays_consistent (s3 : S3Service.t) (db : Db) :
  storeConsistent db →
  (∀ rs, storeConsistent (serve s3 rs db))
  ∧ (∀ env dto file uploadedById us,
       storeConsistent (runTurns s3 env dto file uploadedById us db).2).
Proof.
  intros Hinv. split.
  - intros rs. revert db Hinv. induction rs as [|r rs IH]; intros db Hinv; [done|].
    rewrite serve_cons. by apply IH, handle_consistent.
  - intros env dto file uploadedById us.
    by apply (turns_consistent s3 env dto file uploadedById us (AwaitExisting, db)).
Qed.

Lemma store_stays_consistent_witness :
  storeConsistent
    (runTurns Sample.s3 Sample.env Sample.dto Sample.file "u1"
       [TurnUpload; TurnUpload; TurnUpload;
        TurnRequest (PostUpload (mkUploadEnv "uuid-2" None "v2") Sample.dto
                       Sample.file "u1");
        TurnUpload]
       (Sample.dbIn PROCESSING)).2.
Proof.
  refine (proj2 (store_stays_consistent Sample.s3 (Sample.dbIn PROCESSING) _) _ _ _ _ _).
  split_and!.
  - intros v Hv. by apply elem_of_nil in Hv.
  - intros v Hv. by apply elem_of_nil in Hv.
  - apply NoDup_nil_2.
  - apply NoDup_nil_2.
Defined.

(** ** The object key of an uploaded file *)

Section ObjectKey.

Lemma string_append_assoc (a b c : string) : (a +:+ b) +:+ c = a +:+ (b +:+ c).
Proof.
  induction a as [|x a IH]; [done|].
  change (String x ((a +:+ b) +:+ c) = String x (a +:+ (b +:+ c))).
  by rewrite IH.
Qed.

Lemma string_append_nil_r (a : string) : a +:+ "" = a.
Proof.
  induction a as [|x a IH]; [done|].
  change (String x (a +:+ "") = String x a). by rewrite IH.
Qed.

(** A name without dots is read through to its end. *)
Lemma lastSegment_free name acc :
  freeOf "." name → lastSegment name acc = acc +:+ name.
Proof.
  revert acc. induction name as [|c name IH]; intros acc Hfree.
  - cbn. by rewrite string_append_nil_r.
  - destruct Hfree as [Hc Hfree]. cbn [lastSegment]. rewrite decide_False by done.
    rewrite IH by done. by rewrite string_append_assoc.
Qed.

(** What precedes a dot is forgotten. *)
Lemma lastSegment_dot pre rest acc :
  lastSegment (pre +:+ "." +:+ rest) acc = lastSegment rest "".
Proof.
  revert acc. induction pre as [|c pre IH]; intros acc.
  - change (lastSegment (String "." rest) acc = lastSegment rest "").
    cbn [lastSegment]. by rewrite decide_True.
  - change (lastSegment (String c (pre +:+ "." +:+ rest)) acc = lastSegment rest "").
    cbn [lastSegment]. destruct (decide (c = "."%char)); apply IH.
Qed.

Lemma freeOf_append c a b : freeOf c a → freeOf c b → freeOf c (a +:+ b).
Proof.
  induction a as [|x a IH]; [done|]. intros [Hx Ha] Hb.
  change (freeOf c (String x (a +:+ b))). split; auto.
Qed.

Lemma lastSegment_is_free name acc :
  freeOf "." acc → freeOf "." (lastSegment name acc).
Proof.
  revert acc. induction name as [|c name IH]; intros acc Hacc; [done|].
  cbn [lastSegment]. destruct (decide (c = "."%char)); apply IH; [done|].
  apply freeOf_append; [done|]. by split.
Qed.

End ObjectKey.

(** X10: when the S3 client accepts the file, [uploadFile] returns the
    public URL of the key [folder/uuid.ext], where [ext] is what follows
    the last dot of the original name and never holds a dot; a name
    without any dot is taken whole as the extension. *)
Theorem uploadFile_key (this : S3Service.t) (env : UploadEnv)
    (file : MulterFile.t) (folder : string) :
  sendError env = None →
  ∃ ext,
    S3Service.uploadFile this env file folder
    = Return ("https://" +:+ S3Service.bucketName this +:+ ".s3."
                +:+ S3Service.region this +:+ ".amazonaws.com/"
                +:+ folder +:+ "/" +:+ randomUUID env +:+ "." +:+ ext)
    ∧ freeOf "." ext
    ∧ (∀ pre suffix, freeOf "." suffix →
         MulterFile.originalname file = pre +:+ "." +:+ suffix → ext = suffix)
    ∧ (freeOf "." (MulterFile.originalname file) →
       ext = MulterFile.originalname file).
Proof.
  intros Hsend. exists (lastSegment (MulterFile.originalname file) "").
  unfold S3Service.uploadFile. rewrite Hsend. split_and!.
  - done.
  - by apply lastSegment_is_free.
  - intros pre suffix Hfree ->. rewrite lastSegment_dot. by apply lastSegment_free.
  - intros Hfree. by rewrite lastSegment_free.
Qed.

Lemma uploadFile_key_witness :
  ∃ ext,
    S3Service.uploadFile Sample.s3 Sample.env Sample.file "proof-videos"
    = Return ("https://" +:+ S3Service.bucketName Sample.s3 +:+ ".s3."
                +:+ S3Service.region Sample.s3 +:+ ".amazonaws.com/"
                +:+ "proof-videos" +:+ "/" +:+ randomUUID Sample.env +:+ "." +:+ ext)
    ∧ freeOf "." ext
    ∧ (∀ pre suffix, freeOf "." suffix →
         MulterFile.originalname Sample.file = pre +:+ "." +:+ suffix → ext = suffix)
    ∧ (freeOf "." (MulterFile.originalname Sample.file) →
       ext = MulterFile.originalname Sample.file).
Proof.
  apply (uploadFile_key Sample.s3 Sample.env Sample.file "proof-videos").
  reflexivity.
Defined.

(** ** Creating shipments *)

Section CreateShipment.

Lemma findByAwb_None awb organizationId db :
  List.find (λ kv : string * Shipment.t,
               bool_decide (Shipment.awb kv.2 = awb
                            ∧ Shipment.organizationId kv.2 = organizationId))
    (map_to_list (shipments db)) = None
  ↔ ∀ i s, shipments db !! i = Some s →
           ¬ (Shipment.awb s = awb ∧ Shipment.organizationId s = organizationId).
Proof.
  split.
  - intros Hfind i s Hs. apply elem_of_map_to_list, list_elem_of_In in Hs.
    apply (find_none _ _ Hfind) in Hs. by apply bool_decide_eq_false in Hs.
  - intros Hno. destruct (List.find _ _) as [[i s]|] eqn:Hfind; [|done].
    apply find_some in Hfind as [Hin Hkey]. apply bool_decide_eq_true in Hkey.
    apply list_elem_of_In, elem_of_map_to_list in Hin. by destruct (Hno i s Hin).
Qed.

(** [create], one branch per outcome. *)
Lemma create_unfold organizations generatedId dto createdById db :
  ShipmentsService.create organizations generatedId dto createdById db =
    let row := Shipment.mk (CreateShipmentDto.awb dto) CREATED
                 (CreateShipmentDto.organizationId dto) createdById in
    if decide (∃ i s, shipments db !! i = Some s
                      ∧ Shipment.awb s = CreateShipmentDto.awb dto
                      ∧ Shipment.organizationId s = CreateShipmentDto.organizationId dto)
    then (Throw (mkException ConflictException
                   ("Shipment with AWB " +:+ CreateShipmentDto.awb dto
                      +:+ " already exists for this organization")), db)
    else if decide (is_Some (shipments db !! generatedId))
    then (Throw (mkException PrismaClientKnownRequestError "P2002"), db)
    else if decide (CreateShipmentDto.organizationId dto ∈ organizations
                    ∧ createdById ∈ users db)
    then (Return row, set_shipments db (<[generatedId := row]> (shipments db)))
    else (Throw (mkException PrismaClientKnownRequestError "P2003"), db).
Proof.
  unfold ShipmentsService.create, ShipmentsRepository.findByAwb,
    ShipmentsRepository.create, bind, throw. cbn.
  destruct (List.find _ _) as [[i s]|] eqn:Hfind; cbn.
  - apply find_some in Hfind as [Hin Hkey]. apply bool_decide_eq_true in Hkey.
    apply list_elem_of_In, elem_of_map_to_list in Hin.
    rewrite decide_True; [done|]. exists i, s. by destruct Hkey.
  - pose proof Hfind as Hnone. rewrite findByAwb_None in Hnone.
    destruct (decide (∃ i s, _)) as [(i & s & Hs & Ha & Ho) | _];
      [by destruct (Hnone i s Hs)|].
    destruct (decide (is_Some (shipments db !! generatedId))) as [Hid | Hid].
    + rewrite bool_decide_eq_true_2; [done | by left].
    + rewrite bool_decide_eq_false_2;
        [|intros [? | [x Hx]]; [done | by rewrite Hfind in Hx]].
      destruct (decide _) as [Hfk | Hfk].
      * by rewrite bool_decide_eq_true_2.
      * by rewrite bool_decide_eq_false_2.
Qed.

End CreateShipment.

(** X11: [ShipmentsService.create] throws the conflict error, the store
    untouched, when a shipment of the organization already has the AWB;
    otherwise, with a fresh primary key and an organization and a creator
    that exist, it stores the shipment in status [CREATED] without
    touching any other row, and [findById] returns it. *)
Theorem create_shipment_outcome (organizations : gset string) (generatedId : string)
    (dto : CreateShipmentDto.t) (createdById : string) (db : Db) :
  let row := Shipment.mk (CreateShipmentDto.awb dto) CREATED
               (CreateShipmentDto.organizationId dto) createdById in
  let r := ShipmentsService.create organizations generatedId dto createdById db in
  ((∃ i s, shipments db !! i = Some s
           ∧ Shipment.awb s = CreateShipmentDto.awb dto
           ∧ Shipment.organizationId s = CreateShipmentDto.organizationId dto) →
   r = (Throw (mkException ConflictException
                 ("Shipment with AWB " +:+ CreateShipmentDto.awb dto
                    +:+ " already exists for this organization")), db))
  ∧ ((∀ i s, shipments db !! i = Some s →
             ¬ (Shipment.awb s = CreateShipmentDto.awb dto
                ∧ Shipment.organizationId s = CreateShipmentDto.organizationId dto)) →
     shipments db !! generatedId = None →
     CreateShipmentDto.organizationId dto ∈ organizations →
     createdById ∈ users db →
     r.1 = Return row
     ∧ shipments r.2 !! generatedId = Some row
     ∧ (∀ i, i ≠ generatedId → shipments r.2 !! i = shipments db !! i)
     ∧ proofVideos r.2 = proofVideos db ∧ shareLinks r.2 = shareLinks db
     ∧ ShipmentsService.findById generatedId r.2 = (Return row, r.2))
  ∧ (is_return r.1 = false → r.2 = db).
Proof.
  intros row r. subst r row. rewrite create_unfold. cbn. split_and!.
  - intros Hex. by rewrite decide_True.
  - intros Hno Hfresh Horg Hu.
    rewrite decide_False by (intros (i & s & Hs & Ha & Ho); by destruct (Hno i s Hs)).
    rewrite decide_False by (rewrite Hfresh; by intros [? ?]).
    rewrite decide_True by done. cbn. split_and!; try done.
    + by rewrite lookup_insert_eq.
    + intros i Hi. by rewrite lookup_insert_ne.
    + unfold ShipmentsService.findById, ShipmentsRepository.findById, bind, ret. cbn.
      by rewrite lookup_insert_eq.
  - by repeat destruct (decide _).
Qed.

(** X12: the AWB stays unique within an organization: [create] keeps
    the unique index on [(awb, organizationId)] whatever it is given, and
    so does every sequence of status-transition and upload requests. *)
Theorem awb_stays_unique (s3 : S3Service.t) (db : Db) :
  awbUnique db →
  (∀ organizations generatedId dto createdById,
     awbUnique (ShipmentsService.create organizations generatedId dto createdById db).2)
  ∧ (∀ rs, awbUnique (serve s3 rs db)).
Proof.
  intros Huniq. split.
  - intros organizations generatedId dto createdById. rewrite create_unfold. cbn.
    destruct (decide (∃ i s, _)) as [|Hno]; [done|].
    destruct (decide (is_Some _)) as [|Hfresh]; [done|].
    destruct (decide (_ ∧ _)); [|done].
    intros i j s t Hi Hj Ha Ho. cbn in Hi, Hj.
    destruct (decide (i = generatedId)) as [-> | Hi'];
      destruct (decide (j = generatedId)) as [-> | Hj']; [done | | |].
    + rewrite lookup_insert_eq in Hi. rewrite lookup_insert_ne in Hj by done.
      injection Hi as <-. cbn in *. destruct Hno. by exists j, t.
    + rewrite lookup_insert_eq in Hj. rewrite lookup_insert_ne in Hi by done.
      injection Hj as <-. cbn in *. destruct Hno. by exists i, s.
    + rewrite lookup_insert_ne in Hi, Hj by done. by apply (Huniq i j s t).
  - intros rs. revert db Huniq. induction rs as [|r rs IH]; intros db Huniq; [done|].
    rewrite serve_cons. apply IH. intros i j s t Hi Hj Ha Ho.
    pose proof (handle_row s3 r db i) as Hri. pose proof (handle_row s3 r db j) as Hrj.
    destruct (shipments db !! i) as [s0|] eqn:Hi0; [|by rewrite Hri in Hi].
    destruct (shipments db !! j) as [t0|] eqn:Hj0; [|by rewrite Hrj in Hj].
    destruct Hri as [st Hri]. destruct Hrj as [st' Hrj].
    rewrite Hri in Hi. rewrite Hrj in Hj. injection Hi as <-. injection Hj as <-.
    by apply (Huniq i j s0 t0).
Qed.

Lemma awb_stays_unique_witness :
  awbUnique
    (ShipmentsService.create Sample.organizations "s2" Sample.createDto "u1"
       (Sample.dbIn CREATED)).2.
Proof.
  refine (proj1 (awb_stays_unique Sample.s3 (Sample.dbIn CREATED) _) _ _ _ _).
  intros i j s t Hi Hj _ _. cbn in Hi, Hj.
  apply lookup_singleton_Some in Hi as [<- _].
  by apply lookup_singleton_Some in Hj as [<- _].
Defined.

Example create_shipment_sample :
  ShipmentsService.create Sample.organizations "s2" Sample.createDto "u1"
    (Sample.dbIn SEALED)
  = (Return (Shipment.mk "AWB2" CREATED "org-A" "u1"),
     mkDb {[ "u1" ]}
       (<["s2" := Shipment.mk "AWB2" CREATED "org-A" "u1"]>
          {[ "s1" := Sample.shipmentIn SEALED ]}) [] [])
  ∧ ShipmentsService.create Sample.organizations "s2"
      (CreateShipmentDto.mk "AWB1" "org-A") "u1" (Sample.dbIn SEALED)
    = (Throw (mkException ConflictException
                "Shipment with AWB AWB1 already exists for this organization"),
       Sample.dbIn SEALED).
Proof. split; reflexivity. Qed.

(** ** Issuing share links *)

Section IssueLinks.

(** In a zone of fixed offset, setting the hour to the current hour plus
    [hours] moves the time value by [hours] hours. *)
Lemma setHours_fixed_offset (LocalTZA : Z → bool → Z) (offset now hours : Z) :
  (∀ t isUTC, LocalTZA t isUTC = offset) →
  JsDate.setHours LocalTZA now (JsDate.getHours LocalTZA now + hours)
  = JsDate.TimeClip (now + hours * JsDate.msPerHour).
Proof.
  intros Hzone.
  unfold JsDate.setHours, JsDate.getHours, JsDate.UTC, JsDate.LocalTime.
  rewrite !Hzone. f_equal.
  unfold JsDate.MakeDate, JsDate.MakeTime, JsDate.Day, JsDate.HourFromTime,
    JsDate.MinFromTime, JsDate.SecFromTime, JsDate.msFromTime,
    JsDate.msPerDay, JsDate.msPerHour, JsDate.msPerMinute, JsDate.msPerSecond.
  remember (now + offset)%Z as t eqn:Ht.
  Z.to_euclidean_division_equations. lia.
Qed.

End IssueLinks.

Section Tokens.

Lemma hexDigit_inj (m n : N) :
  (m < 16)%N → (n < 16)%N → hexDigit m = hexDigit n → m = n.
Proof.
  intros Hm Hn.
  destruct m as [|p]; [|repeat (destruct p as [p|p|]; try lia)];
    (destruct n as [|q]; [|repeat (destruct q as [q|q|]; try lia)]);
    cbn; intros Heq; first [reflexivity | discriminate Heq].
Qed.

Lemma byte_nibbles (b : Byte.byte) :
  (Byte.to_N b / 16 < 16)%N ∧ (Byte.to_N b mod 16 < 16)%N.
Proof.
  pose proof (Byte.to_N_bounded b) as Hb. split.
  - apply N.Div0.div_lt_upper_bound. lia.
  - apply N.mod_lt. lia.
Qed.

Lemma toHex_length (bytes : list Byte.byte) :
  String.length (toHex bytes) = (2 * length bytes)%nat.
Proof. induction bytes as [|b bytes IH]; cbn; [done | rewrite IH; lia]. Qed.

Lemma toHex_inj (bytes bytes' : list Byte.byte) :
  toHex bytes = toHex bytes' → bytes = bytes'.
Proof.
  revert bytes'. induction bytes as [|b bytes IH]; intros [|b' bytes']; cbn;
    try done.
  intros [= Hhi Hlo Hrest].
  destruct (byte_nibbles b) as [? ?]. destruct (byte_nibbles b') as [? ?].
  apply hexDigit_inj in Hhi; [|done..]. apply hexDigit_inj in Hlo; [|done..].
  assert (Byte.to_N b = Byte.to_N b') as Heq.
  { rewrite (N.div_mod (Byte.to_N b) 16), (N.div_mod (Byte.to_N b') 16) by lia.
    by rewrite Hhi, Hlo. }
  assert (Some b = Some b') as [= <-]
    by (rewrite <- (Byte.of_to_N b), <- (Byte.of_to_N b'); by rewrite Heq).
  f_equal. by apply IH.
Qed.

Lemma toHex_digits (bytes : list Byte.byte) (i : nat) (c : ascii) :
  String.get i (toHex bytes) = Some c → ∃ n, (n < 16)%N ∧ c = hexDigit n.
Proof.
  revert i. induction bytes as [|b bytes IH]; intros i; [done|].
  destruct (byte_nibbles b) as [? ?]. cbn [toHex].
  destruct i as [|[|i]]; cbn.
  - intros [= <-]. eauto.
  - intros [= <-]. eauto.
  - apply IH.
Qed.

End Tokens.

(** X13: a token is 64 characters long, each a lowercase hexadecimal
    digit, and two tokens are equal only if the 32 random bytes they are
    made of are: the encoding loses nothing of the randomness drawn. *)
Theorem generateToken_format (randomBytes randomBytes' : nat → list Byte.byte) :
  length (randomBytes 32%nat) = 32%nat →
  String.length (ShareLinksService.generateToken randomBytes) = 64%nat
  ∧ (∀ i c, String.get i (ShareLinksService.generateToken randomBytes) = Some c →
       ∃ n, (n < 16)%N ∧ c = hexDigit n)
  ∧ (ShareLinksService.generateToken randomBytes
     = ShareLinksService.generateToken randomBytes' →
     randomBytes 32%nat = randomBytes' 32%nat).
Proof.
  intros Hlen. unfold ShareLinksService.generateToken. split_and!.
  - by rewrite toHex_length, Hlen.
  - apply toHex_digits.
  - apply toHex_inj.
Qed.

Lemma generateToken_format_witness :
  String.length (ShareLinksService.generateToken Sample.randomBytes) = 64%nat.
Proof.
  apply (proj1 (generateToken_format Sample.randomBytes Sample.randomBytes eq_refl)).
Defined.

Section LinkLifeCycle.

Lemma find_unique_by {A} (key : A → string) (k : string) (l : list A) (x : A) :
  NoDup (key <$> l) → x ∈ l → key x = k →
  List.find (λ y, bool_decide (key y = k)) l = Some x.
Proof.
  induction l as [|y l IH]; intros Hnd Hx Hk.
  - by apply elem_of_nil in Hx.
  - cbn in *. apply NoDup_cons in Hnd as [Hfresh Hnd].
    apply elem_of_cons in Hx as [-> | Hx].
    + by rewrite bool_decide_eq_true_2.
    + rewrite bool_decide_eq_false_2; [by apply IH|].
      intros Heq. apply Hfresh. rewrite Heq, <- Hk. by apply list_elem_of_fmap_2.
Qed.

Lemma find_filter_keep {A} (f : A → bool) (P : A → Prop) `{∀ x, Decision (P x)}
    (l : list A) (x : A) :
  List.find f l = Some x → P x → List.find f (filter P l) = Some x.
Proof.
  intros Hfind HP. induction l as [|y l IH]; [done|]. cbn in Hfind.
  rewrite filter_cons. destruct (f y) eqn:Hy.
  - injection Hfind as ->. rewrite decide_True by done. cbn. by rewrite Hy.
  - destruct (decide (P y)); [cbn; rewrite Hy|]; by apply IH.
Qed.

Lemma find_filter_none {A} (f : A → bool) (P : A → Prop) `{∀ x, Decision (P x)}
    (l : list A) :
  (∀ x, x ∈ l → f x = true → ¬ P x) → List.find f (filter P l) = None.
Proof.
  intros Hno. induction l as [|y l IH]; [done|].
  rewrite filter_cons. destruct (decide (P y)) as [HP|].
  - cbn. destruct (f y) eqn:Hy.
    + by destruct (Hno y (list_elem_of_here _ _) Hy).
    + apply IH. intros x Hx. apply Hno. by apply list_elem_of_further.
  - apply IH. intros x Hx. apply Hno. by apply list_elem_of_further.
Qed.

Lemma includeOf_links l db links :
  includeOf l (set_shareLinks db links) = includeOf l db.
Proof. done. Qed.



End LinkLifeCycle.

(** X14: in a time zone of fixed offset, a link issued for [hours] hours
    on a fresh token and primary key, for a video that exists, is stored
    with [expiresAt] exactly [hours] hours after the time of issue, every
    other row untouched; its token validates, returning this link, at
    every instant up to and including [expiresAt], and is answered with
    the expired error at every instant after. *)
Theorem issued_link_validates (LocalTZA : Z → bool → Z) (offset now : Z)
    (randomBytes : nat → list Byte.byte) (generatedId : string)
    (dto : CreateShareLinkDto.t) (db : Db) :
  let token := ShareLinksService.generateToken randomBytes in
  let expiresAt :=
    (now + CreateShareLinkDto.expiresInHours dto * JsDate.msPerHour)%Z in
  let row := ShareLink.mk generatedId token
               (CreateShareLinkDto.proofVideoId dto) expiresAt in
  let db' := set_shareLinks db (shareLinks db ++ [row]) in
  (∀ t isUTC, LocalTZA t isUTC = offset) →
  (Z.abs expiresAt ≤ 8640000000000000)%Z →
  (∀ l, l ∈ shareLinks db →
        ShareLink.id l ≠ generatedId ∧ ShareLink.token l ≠ token) →
  (∃ v, v ∈ proofVideos db ∧ ProofVideo.id v = CreateShareLinkDto.proofVideoId dto) →
  ∃ m,
    ShareLinksService.create LocalTZA now randomBytes generatedId dto = Some m
    ∧ m db = (Return (includeOf row db'), db')
    ∧ ∀ now',
        ShareLinksService.validateToken now' token db'
        = if decide (now' > expiresAt)%Z
          then (Throw (mkException UnauthorizedException "Share link has expired"), db')
          else (Return (includeOf row db'), db').
Proof.
  intros token expiresAt row db' Hzone Hrange Hfresh (v & Hv & Hvid).
  unfold ShareLinksService.create.
  rewrite (setHours_fixed_offset LocalTZA offset now _ Hzone).
  unfold JsDate.TimeClip. fold expiresAt. rewrite decide_False by lia.
  eexists. split; [reflexivity|]. split.
  - unfold ShareLinksRepository.create. fold token row.
    rewrite bool_decide_eq_false_2.
    + rewrite bool_decide_eq_true_2; [done|].
      apply Exists_exists. by exists v.
    + intros Hex. apply Exists_exists in Hex as (l & Hl & Hdup).
      destruct (Hfresh l Hl). by destruct Hdup.
  - intros now'. rewrite validateToken_unfold. unfold findLink. cbn.
    rewrite (find_snoc_fresh _ (shareLinks db) row).
    + done.
    + by apply bool_decide_eq_true.
    + intros l Hl. apply bool_decide_eq_false. by destruct (Hfresh l Hl).
Qed.

Lemma issued_link_validates_witness :
  ∃ m,
    ShareLinksService.create Sample.utc 1000 Sample.randomBytes "l9" Sample.linkDto
    = Some m.
Proof.
  destruct (issued_link_validates Sample.utc 0 1000 Sample.randomBytes "l9"
              Sample.linkDto Sample.dbLinks) as (m & Hm & _).
  - reflexivity.
  - by vm_compute.
  - intros l Hl. cbn in Hl.
    apply elem_of_cons in Hl as [-> | Hl]; [by split|].
    apply list_elem_of_singleton in Hl as ->. by split.
  - exists Sample.video. split; [apply list_elem_of_here | reflexivity].
  - by exists m.
Defined.



(** X16: cleaning up at an instant does not change what validation
    answers at that instant, except that an expired token is now unknown:
    under the unique index on [token], a token that validated still
    returns the same link, an unknown token is still unknown, a token
    that was expired is answered with the not-found error, and no token
    is answered with the expired error. *)
Theorem cleanup_then_validate (now : Z) (token : string) (db : Db) :
  NoDup (ShareLink.token <$> shareLinks db) →
  let db' := (ShareLinksService.cleanupExpired now db).2 in
  (∀ r, ShareLinksService.validateToken now token db = (Return r, db) →
        ShareLinksService.validateToken now token db' = (Return r, db'))
  ∧ (∀ e, ShareLinksService.validateToken now token db = (Throw e, db) →
          ShareLinksService.validateToken now token db'
          = (Throw (mkException NotFoundException "Invalid share link"), db'))
  ∧ (ShareLinksService.validateToken now token db').1
    ≠ Throw (mkException UnauthorizedException "Share link has expired").
Proof.
  intros Htoks db'. subst db'. rewrite !validateToken_unfold.
  unfold findLink, ShareLinksService.cleanupExpired,
    ShareLinksRepository.deleteExpired. cbn.
  destruct (List.find _ (shareLinks db)) as [l|] eqn:Hfind.
  - destruct (decide (now > ShareLink.expiresAt l)%Z) as [Hexp | Hlive].
    + assert (List.find (λ l0, bool_decide (ShareLink.token l0 = token))
                (filter (λ l0, ¬ (ShareLink.expiresAt l0 < now)%Z) (shareLinks db))
              = None) as ->.
      { apply find_filter_none. intros x Hx Htok Hkeep.
        apply bool_decide_eq_true in Htok.
        apply find_some in Hfind as [Hl Hltok]. apply bool_decide_eq_true in Hltok.
        apply list_elem_of_In in Hl.
        pose proof (find_unique_by ShareLink.token token _ x Htoks Hx Htok) as Hf.
        rewrite (find_unique_by ShareLink.token token _ l Htoks Hl Hltok) in Hf.
        injection Hf as ->. lia. }
      split_and!; [done | done | done].
    + rewrite (find_filter_keep _ _ _ l Hfind) by lia.
      rewrite decide_False by done. split_and!; [|done|done].
      intros r [= <-]. by rewrite includeOf_links.
  - rewrite find_filter_none.
    + split_and!; done.
    + intros x Hx Htok. apply list_elem_of_In in Hx.
      apply (find_none _ _ Hfind) in Hx. by rewrite Htok in Hx.
Qed.

Lemma cleanup_then_validate_witness :
  ShareLinksService.validateToken 2000 "tok-a"
    (ShareLinksService.cleanupExpired 2000 Sample.dbLinks).2
  = (Throw (mkException NotFoundException "Invalid share link"),
     (ShareLinksService.cleanupExpired 2000 Sample.dbLinks).2).
Proof.
  assert (NoDup (ShareLink.token <$> shareLinks Sample.dbLinks)) as Htoks by by_decide.
  destruct (cleanup_then_validate 2000 "tok-a" Sample.dbLinks Htoks) as (_ & Hexp & _).
  apply (Hexp (mkException UnauthorizedException "Share link has expired")).
  reflexivity.
Defined.

(** X17: issuing a link never touches a link that exists nor any other
    table: the link table is left as it was or gets one row at its end,
    carrying the generated token; when the token or the primary key is
    already taken the method throws the unique-constraint error and
    writes nothing. *)
Theorem issue_never_overwrites (LocalTZA : Z → bool → Z) (now : Z)
    (randomBytes : nat → list Byte.byte) (generatedId : string)
    (dto : CreateShareLinkDto.t) (db : Db) (m : M ShareLinkWithVideo) :
  ShareLinksService.create LocalTZA now randomBytes generatedId dto = Some m →
  users (m db).2 = users db
  ∧ shipments (m db).2 = shipments db
  ∧ proofVideos (m db).2 = proofVideos db
  ∧ (shareLinks (m db).2 = shareLinks db
     ∨ ∃ expiresAt,
         shareLinks (m db).2
         = (shareLinks db ++
              [ShareLink.mk generatedId (ShareLinksService.generateToken randomBytes)
                 (CreateShareLinkDto.proofVideoId dto) expiresAt])%list)
  ∧ ((∃ l, l ∈ shareLinks db
           ∧ (ShareLink.id l = generatedId
              ∨ ShareLink.token l = ShareLinksService.generateToken randomBytes)) →
     m db = (Throw (mkException PrismaClientKnownRequestError "P2002"), db)).
Proof.
  unfold ShareLinksService.create.
  destruct (JsDate.setHours _ _ _) as [expiresAt|]; [|done]. intros [= <-].
  unfold ShareLinksRepository.create.
  case_bool_decide as Hdup.
  - split_and!; try done. by left.
  - case_bool_decide as Hvid; cbn.
    + split_and!; try done; [right; by exists expiresAt|].
      intros (l & Hl & Hl'). destruct Hdup. apply Exists_exists. by exists l.
    + split_and!; try done; [by left|].
      intros (l & Hl & Hl'). destruct Hdup. apply Exists_exists. by exists l.
Qed.

Lemma issue_never_overwrites_witness :
  ∃ m,
    ShareLinksService.create Sample.utc 1000 Sample.randomBytes "l1" Sample.linkDto
    = Some m
    ∧ m Sample.dbLinks
      = (Throw (mkException PrismaClientKnownRequestError "P2002"), Sample.dbLinks).
Proof.
  eexists. split; [reflexivity|].
  refine (proj2 (proj2 (proj2 (proj2
            (issue_never_overwrites Sample.utc 1000 Sample.randomBytes "l1"
               Sample.linkDto Sample.dbLinks _ eq_refl)))) _).
  exists Sample.linkA. split; [apply list_elem_of_here | by left].
Defined.

(** ** The organization guard *)

(** X18: the guard lets a request through exactly when the organization
    id it finds is absent or empty, or is the user's own; it looks at the
    route parameter first and at the body only when the parameter is
    absent or empty, so a body naming another organization is not looked
    at when the parameter is given; and it never answers but by returning
    [true] or throwing the forbidden error. *)
Theorem organizationGuard_decision (request : OrganizationGuard.HttpRequest) :
  let user := OrganizationGuard.user_organizationId request in
  let params := OrganizationGuard.params_organizationId request in
  let body := OrganizationGuard.body_organizationId request in
  let r := OrganizationGuard.canActivate request in
  (∀ p, params = Some p → p ≠ "" →
        (r = OrganizationGuard.ReturnTrue ↔ p = user))
  ∧ (OrganizationGuard.truthy params = false →
     ∀ b, body = Some b → b ≠ "" →
          (r = OrganizationGuard.ReturnTrue ↔ b = user))
  ∧ (OrganizationGuard.truthy params = false →
     OrganizationGuard.truthy body = false →
     r = OrganizationGuard.ReturnTrue)
  ∧ (r = OrganizationGuard.ReturnTrue
     ∨ r = OrganizationGuard.ThrowForbidden
             "You do not have permission to access this organization").
Proof.
  destruct request as [user params body]. cbn.
  unfold OrganizationGuard.canActivate, OrganizationGuard.or. cbn.
  assert (∀ x : string, x ≠ "" →
            (if negb (OrganizationGuard.truthy (Some x)) then OrganizationGuard.ReturnTrue
             else if bool_decide (Some user ≠ Some x)
                  then OrganizationGuard.ThrowForbidden
                         "You do not have permission to access this organization"
                  else OrganizationGuard.ReturnTrue)
            = OrganizationGuard.ReturnTrue ↔ x = user) as Hdecide.
  { intros x Hx. cbn. rewrite bool_decide_eq_false_2 by done. cbn.
    case_bool_decide as Hne; split; try done.
    - intros ->. by destruct Hne.
    - intros _. by injection Hne. }
  split_and!.
  - intros p -> Hp. cbn. rewrite bool_decide_eq_false_2 by done. cbn.
    apply (Hdecide p Hp).
  - intros Hparams b -> Hb. rewrite Hparams. apply (Hdecide b Hb).
  - intros Hparams Hbody. rewrite Hparams. by rewrite Hbody.
  - destruct (OrganizationGuard.truthy params);
      destruct (negb _); try (by left); case_bool_decide; auto.
Qed.

(** ** Two uploads for one shipment *)

(** X19: when an upload has got past its guards and the blob store, and
    another upload for the same shipment returns before the first inserts
    its row, the first is rejected by the unique index on [shipmentId]:
    it settles with the constraint error P2002, not with the conflict
    error of its own guard, and leaves the store of the upload that
    returned, with that upload's video only. *)
Theorem second_uploader_rejected (s3 : S3Service.t) (env env' : UploadEnv)
    (dto : UploadVideoDto.t) (file file' : MulterFile.t)
    (uploadedById uploadedById' : string) (db db1 : Db) (s : Shipment.t)
    (v' : ProofVideo.t) :
  VideosService.uploadChecks dto db = (Return s, db) →
  sendError env = None →
  VideosService.upload s3 env' dto file' uploadedById' db = (Return v', db1) →
  runTurns s3 env dto file uploadedById
    [TurnUpload; TurnUpload; TurnUpload;
     TurnRequest (PostUpload env' dto file' uploadedById');
     TurnUpload] db
  = (Settled (Throw (mkException PrismaClientKnownRequestError "P2002")), db1)
  ∧ filter (λ w, ProofVideo.shipmentId w = UploadVideoDto.shipmentId dto)
      (proofVideos db1) = [v'].
Proof.
  intros Hchk Hsend Hup.
  pose proof Hup as Hinv.
  apply upload_return_inv in Hinv as (s0 & videoUrl & Hs0 & Hnv & _ & _ & -> & ->).
  apply uploadChecks_return in Hchk as (_ & Hs & Hns & Hnf & _).
  split.
  - unfold runTurns. cbn [foldl turn fst snd].
    unfold resume at 5. unfold settle, VideosRepository.findByShipmentId. cbn.
    apply find_hasVideo in Hnv. rewrite Hnv.
    unfold resume at 4. unfold settle, ShipmentsRepository.findById. cbn.
    rewrite Hs. rewrite !decide_False by done.
    unfold resume at 3. unfold settle, lift, S3Service.uploadFile. rewrite Hsend. cbn.
    rewrite Hup. cbn.
    unfold S3Service.uploadFile. rewrite Hsend. cbn.
    unfold VideosRepository.create. cbn.
    rewrite bool_decide_eq_true_2; [done|].
    apply Exists_app. right. apply Exists_cons. left. by right.
  - cbn. rewrite filter_app, (hasVideo_filter_nil _ _ Hnv). cbn.
    by rewrite decide_True.
Qed.

Lemma second_uploader_rejected_witness :
  runTurns Sample.s3 Sample.env Sample.dto Sample.file "u1"
    [TurnUpload; TurnUpload; TurnUpload;
     TurnRequest (PostUpload (mkUploadEnv "uuid-2" None "v2") Sample.dto
                    Sample.file "u1");
     TurnUpload] (Sample.dbIn PROCESSING)
  = (Settled (Throw (mkException PrismaClientKnownRequestError "P2002")),
     mkDb {[ "u1" ]} {[ "s1" := Sample.shipmentIn SEALED ]}
       [ProofVideo.mk "v2" "s1"
          "https://proofs.s3.eu-west-1.amazonaws.com/proof-videos/uuid-2.mp4" "u1"]
       []).
Proof.
  refine (proj1 (second_uploader_rejected Sample.s3 Sample.env
                   (mkUploadEnv "uuid-2" None "v2") Sample.dto Sample.file Sample.file
                   "u1" "u1" (Sample.dbIn PROCESSING) _
                   (Sample.shipmentIn PROCESSING) _ _ _ _)).
  - reflexivity.
  - reflexivity.
  - reflexivity.
Defined.
